(** * meet-scribe-chat: the recording and submission pipeline

    A shallow embedding of the client-side pipeline of the repository:

    - [EmailChipInput]  (components/EmailChipInput.tsx): [isValidEmail],
      [addEmail], [removeEmail];
    - [UseMediaRecorder] (hooks/useMediaRecorder.ts): [startRecording],
      [stopRecording], [pauseRecording], [resumeRecording] and the handlers
      the hook installs on the platform recorder and timer;
    - [ApiService] (services/apiService.ts): [handleApiError],
      [processMeeting];
    - [SubmissionModal] (components/RecordingSubmissionModal.tsx):
      [handleSubmit], [canSubmit].

    React state and refs are modelled by explicit state passing: every
    handler takes the values of the last render and returns the values of the
    next one.  Platform objects the code drives (strings, [Blob],
    [MediaRecorder], interval timers, [fetch]) are modelled in [JS] and
    [Platform] after their specifications. *)

From Stdlib Require Import String Ascii List Bool Arith ZArith PArith Lia.
From Stdlib Require Strings.Byte.
From Stdlib Require Import DecimalString DecimalZ.
Import ListNotations.

Local Open Scope string_scope.
Local Open Scope list_scope.

(* ====================================================================== *)
(** ** JavaScript strings and regular expressions                         *)
(* ====================================================================== *)

Module JS.

(** A JavaScript string is a sequence of UTF-16 code units.  The model keeps
    the code units U+0000..U+00FF (one [ascii] each, read as Latin-1); on
    that range [trim], [toLowerCase] and the class [\s] are exact. *)

Definition code (c : ascii) : nat := nat_of_ascii c.

(** ECMAScript WhiteSpace and LineTerminator below U+0100: TAB, LF, VT, FF,
    CR, SP and NBSP.  [String.prototype.trim] strips exactly these, and the
    regular expression class [\s] matches exactly these. *)
Definition isWhiteSpace (c : ascii) : bool :=
  let n := code c in
  ((n =? 9) || (n =? 10) || (n =? 11) || (n =? 12) || (n =? 13)
   || (n =? 32) || (n =? 160))%nat.

(** Lower-casing of one code unit: A-Z, and the Latin-1 capitals U+00C0..U+00DE
    except the multiplication sign U+00D7, move up by 32. *)
Definition lowerChar (c : ascii) : ascii :=
  let n := code c in
  if (((65 <=? n) && (n <=? 90))
      || ((192 <=? n) && (n <=? 222) && negb (n =? 215)))%nat
  then ascii_of_nat (n + 32)
  else c.

Fixpoint toLowerCase (s : string) : string :=
  match s with
  | EmptyString => EmptyString
  | String c r => String (lowerChar c) (toLowerCase r)
  end.

Fixpoint trimStart (s : string) : string :=
  match s with
  | EmptyString => EmptyString
  | String c r => if isWhiteSpace c then trimStart r else s
  end.

Fixpoint trimEnd (s : string) : string :=
  match s with
  | EmptyString => EmptyString
  | String c r =>
      match trimEnd r with
      | EmptyString => if isWhiteSpace c then EmptyString else String c EmptyString
      | r' => String c r'
      end
  end.

Definition trim (s : string) : string := trimEnd (trimStart s).

(** A string that does not start with white space. *)
Definition headKept (s : string) : Prop :=
  match s with
  | EmptyString => True
  | String c _ => isWhiteSpace c = false
  end.

(** Truthiness of a string: the empty string is the only falsy one. *)
Definition truthy (s : string) : bool :=
  match s with
  | EmptyString => false
  | String _ _ => true
  end.

(** [Array.prototype.includes] on an array of strings. *)
Fixpoint includes (l : list string) (x : string) : bool :=
  match l with
  | [] => false
  | y :: r => String.eqb y x || includes r x
  end.

(** *** Regular expressions

    The fragment the source uses: character classes, concatenation and
    [+].  [test] on a pattern anchored by [^] and [$] (no [m] flag) is a
    match of the whole string; it is computed with derivatives. *)

Inductive regex : Type :=
| Never
| Epsilon
| Class (p : ascii -> bool)
| Seq (r1 r2 : regex)
| Alt (r1 r2 : regex)
| Star (r : regex).

Definition Plus (r : regex) : regex := Seq r (Star r).

Fixpoint nullable (r : regex) : bool :=
  match r with
  | Never => false
  | Epsilon => true
  | Class _ => false
  | Seq r1 r2 => nullable r1 && nullable r2
  | Alt r1 r2 => nullable r1 || nullable r2
  | Star _ => true
  end.

Fixpoint deriv (c : ascii) (r : regex) : regex :=
  match r with
  | Never => Never
  | Epsilon => Never
  | Class p => if p c then Epsilon else Never
  | Seq r1 r2 =>
      if nullable r1
      then Alt (Seq (deriv c r1) r2) (deriv c r2)
      else Seq (deriv c r1) r2
  | Alt r1 r2 => Alt (deriv c r1) (deriv c r2)
  | Star r1 => Seq (deriv c r1) (Star r1)
  end.

Fixpoint test (r : regex) (s : string) : bool :=
  match s with
  | EmptyString => nullable r
  | String c s' => test (deriv c r) s'
  end.

(** The words a pattern denotes, for stating what [test] decides. *)
Inductive lang : regex -> string -> Prop :=
| L_eps : lang Epsilon ""
| L_class p c : p c = true -> lang (Class p) (String c "")
| L_seq r1 r2 u v : lang r1 u -> lang r2 v -> lang (Seq r1 r2) (u ++ v)%string
| L_alt_l r1 r2 u : lang r1 u -> lang (Alt r1 r2) u
| L_alt_r r1 r2 u : lang r2 u -> lang (Alt r1 r2) u
| L_star_nil r : lang (Star r) ""
| L_star_cons r u v : lang r u -> lang (Star r) v -> lang (Star r) (u ++ v)%string.

(** A pattern whose classes do not tell a letter from its lower-case form. *)
Fixpoint caseBlind (r : regex) : Prop :=
  match r with
  | Never | Epsilon => True
  | Class p => forall c, p (lowerChar c) = p c
  | Seq r1 r2 | Alt r1 r2 => caseBlind r1 /\ caseBlind r2
  | Star r1 => caseBlind r1
  end.

End JS.

(* ====================================================================== *)
(** ** components/EmailChipInput.tsx                                      *)
(* ====================================================================== *)

Module EmailChipInput.
Import JS.

(** The class [[^\s@]]. *)
Definition notSpaceAt (c : ascii) : bool :=
  negb (isWhiteSpace c || Ascii.eqb c "@"%char).

Definition isChar (d c : ascii) : bool := Ascii.eqb c d.

(** [/^[^\s@]+@[^\s@]+\.[^\s@]+$/] *)
Definition emailRegex : regex :=
  Seq (Plus (Class notSpaceAt))
      (Seq (Class (isChar "@"%char))
           (Seq (Plus (Class notSpaceAt))
                (Seq (Class (isChar "."%char))
                     (Plus (Class notSpaceAt))))).

Definition isValidEmail (email : string) : bool :=
  test emailRegex (trim email).

(** The [emails] prop (owned by the parent, replaced through [onChange]) and
    the two pieces of local state. *)
Record Chips : Type := mkChips {
  emails : list string;
  inputValue : string;
  error : string
}.

Definition setError (msg : string) (st : Chips) : Chips :=
  {| emails := emails st; inputValue := inputValue st; error := msg |}.

Definition invalidMsg : string := "Please enter a valid email address".
Definition duplicateMsg : string := "This email has already been added".

Definition addEmail (st : Chips) (email : string) : Chips :=
  let trimmedEmail := toLowerCase (trim email) in
  if negb (truthy trimmedEmail) then st
  else if negb (isValidEmail trimmedEmail) then setError invalidMsg st
  else if includes (emails st) trimmedEmail then setError duplicateMsg st
  else {| emails := emails st ++ [trimmedEmail]; inputValue := ""; error := "" |}.

Definition removeEmail (st : Chips) (emailToRemove : string) : Chips :=
  {| emails := filter (fun email => negb (String.eqb email emailToRemove)) (emails st);
     inputValue := inputValue st;
     error := error st |}.

(** The form of a stored entry: trimmed, lower-case, and matching the
    e-mail pattern. *)
Definition wellFormed (e : string) : Prop :=
  trim e = e /\ toLowerCase e = e /\ test emailRegex e = true.

(** The shape the pattern describes: [a@b.c] with [a], [b], [c] non-empty
    and free of white space and of [@]. *)
Fixpoint allChars (p : ascii -> bool) (s : string) : bool :=
  match s with
  | EmptyString => true
  | String c r => p c && allChars p r
  end.

Definition part (s : string) : Prop :=
  s <> "" /\ allChars notSpaceAt s = true.

Definition emailShape (s : string) : Prop :=
  exists a b c,
    s = (a ++ "@" ++ b ++ "." ++ c)%string /\ part a /\ part b /\ part c.

End EmailChipInput.

(* ====================================================================== *)
(** ** Platform objects: Blob, MediaRecorder, interval timers             *)
(* ====================================================================== *)

Module Platform.

(** A [Blob]: its bytes and its media type. *)
Record Blob : Type := mkBlob {
  bytes : list Byte.byte;
  type : string
}.

Definition size (b : Blob) : nat := List.length (bytes b).

(** The type given to the [Blob] constructor is kept, in ASCII lower case,
    when all its characters are in U+0020..U+007E, and dropped otherwise. *)
Definition printable (c : ascii) : bool :=
  ((32 <=? JS.code c) && (JS.code c <=? 126))%nat.

Fixpoint allPrintable (s : string) : bool :=
  match s with
  | EmptyString => true
  | String c r => printable c && allPrintable r
  end.

Definition normalizeType (t : string) : string :=
  if allPrintable t then JS.toLowerCase t else "".

(** The bytes of a sequence of blobs, one after the other. *)
Definition payload (parts : list Blob) : list Byte.byte :=
  concat (map bytes parts).

(** [new Blob(parts, { type })]: the parts' bytes, in order. *)
Definition newBlob (parts : list Blob) (t : string) : Blob :=
  {| bytes := payload parts; type := normalizeType t |}.

(** [MediaRecorder]: its [state] attribute, whether the tracks of its stream
    are still live (the capture device is held), whether a [stop] event is
    queued for dispatch, and whether an [onstop] handler is installed. *)
Inductive RecordingState : Type := inactive | recording | paused.

Record MediaRecorder : Type := mkRecorder {
  state : RecordingState;
  tracksLive : bool;
  stopQueued : bool;
  onstop : bool
}.

Definition setState (st : RecordingState) (r : MediaRecorder) : MediaRecorder :=
  {| state := st; tracksLive := tracksLive r;
     stopQueued := stopQueued r; onstop := onstop r |}.

(** [new MediaRecorder(stream)] on a live stream. *)
Definition newRecorder : MediaRecorder :=
  {| state := inactive; tracksLive := true; stopQueued := false; onstop := false |}.

(** [start()], [pause()] and [resume()] throw [InvalidStateError] ([None])
    where the recorder's state forbids them. *)
Definition start (r : MediaRecorder) : option MediaRecorder :=
  match state r with
  | inactive => Some (setState recording r)
  | _ => None
  end.

Definition pause (r : MediaRecorder) : option MediaRecorder :=
  match state r with
  | inactive => None
  | recording => Some (setState paused r)
  | paused => Some r
  end.

Definition resume (r : MediaRecorder) : option MediaRecorder :=
  match state r with
  | inactive => None
  | recording => Some r
  | paused => Some (setState recording r)
  end.

(** [stop()] returns at once on an inactive recorder; otherwise the recorder
    becomes inactive and a [stop] event is queued (after the last
    [dataavailable]). *)
Definition stop (r : MediaRecorder) : MediaRecorder :=
  match state r with
  | inactive => r
  | _ => {| state := inactive; tracksLive := tracksLive r;
            stopQueued := true; onstop := onstop r |}
  end.

Definition installOnstop (r : MediaRecorder) : MediaRecorder :=
  {| state := state r; tracksLive := tracksLive r;
     stopQueued := stopQueued r; onstop := true |}.

(** [stream.getTracks().forEach(track => track.stop())] *)
Definition stopTracks (r : MediaRecorder) : MediaRecorder :=
  {| state := state r; tracksLive := false;
     stopQueued := stopQueued r; onstop := onstop r |}.

Definition dequeueStop (r : MediaRecorder) : MediaRecorder :=
  {| state := state r; tracksLive := tracksLive r;
     stopQueued := false; onstop := onstop r |}.

(** The interval timers this hook has created and not cleared.  Handles
    are integers greater than zero, so a handle is always truthy. *)
Record Timers : Type := mkTimers {
  active : list positive;
  next : positive
}.

Definition setInterval (t : Timers) : positive * Timers :=
  (next t, {| active := active t ++ [next t]; next := Pos.succ (next t) |}).

Definition clearInterval (id : positive) (t : Timers) : Timers :=
  {| active := filter (fun i => negb (Pos.eqb i id)) (active t); next := next t |}.

End Platform.

(* ====================================================================== *)
(** ** hooks/useMediaRecorder.ts                                          *)
(* ====================================================================== *)

Module UseMediaRecorder.
Import Platform.

(** The hook's three state variables, its three refs, and the timer table
    its intervals live in. *)
Record Hook : Type := mkHook {
  isRecording : bool;
  recordingTime : Z;
  error : option string;
  mediaRecorderRef : option MediaRecorder;
  chunksRef : list Blob;
  intervalRef : option positive;
  timers : Timers
}.

Definition initial : Hook :=
  {| isRecording := false; recordingTime := 0; error := None;
     mediaRecorderRef := None; chunksRef := []; intervalRef := None;
     timers := {| active := []; next := 1 |} |}.

Definition setIsRecording (b : bool) (h : Hook) : Hook :=
  {| isRecording := b; recordingTime := recordingTime h; error := error h;
     mediaRecorderRef := mediaRecorderRef h; chunksRef := chunksRef h;
     intervalRef := intervalRef h; timers := timers h |}.

Definition setRecordingTime (f : Z -> Z) (h : Hook) : Hook :=
  {| isRecording := isRecording h; recordingTime := f (recordingTime h);
     error := error h;
     mediaRecorderRef := mediaRecorderRef h; chunksRef := chunksRef h;
     intervalRef := intervalRef h; timers := timers h |}.

Definition setError (e : option string) (h : Hook) : Hook :=
  {| isRecording := isRecording h; recordingTime := recordingTime h; error := e;
     mediaRecorderRef := mediaRecorderRef h; chunksRef := chunksRef h;
     intervalRef := intervalRef h; timers := timers h |}.

Definition setMediaRecorderRef (r : option MediaRecorder) (h : Hook) : Hook :=
  {| isRecording := isRecording h; recordingTime := recordingTime h;
     error := error h;
     mediaRecorderRef := r; chunksRef := chunksRef h;
     intervalRef := intervalRef h; timers := timers h |}.

Definition setChunksRef (c : list Blob) (h : Hook) : Hook :=
  {| isRecording := isRecording h; recordingTime := recordingTime h;
     error := error h;
     mediaRecorderRef := mediaRecorderRef h; chunksRef := c;
     intervalRef := intervalRef h; timers := timers h |}.

Definition setIntervalRef (i : option positive) (t : Timers) (h : Hook) : Hook :=
  {| isRecording := isRecording h; recordingTime := recordingTime h;
     error := error h;
     mediaRecorderRef := mediaRecorderRef h; chunksRef := chunksRef h;
     intervalRef := i; timers := t |}.

Definition startFailedMsg : string :=
  "Failed to start recording. Please check microphone permissions.".

(** The interval callback: [setRecordingTime(prev => prev + 1)]. *)
Definition tick (h : Hook) : Hook := setRecordingTime (fun prev => prev + 1)%Z h.

(** [intervalRef.current = setInterval(tick, 1000)] *)
Definition armInterval (h : Hook) : Hook :=
  let (id, t) := setInterval (timers h) in
  setIntervalRef (Some id) t h.

(** [if (intervalRef.current) { clearInterval(...); intervalRef.current = null }] *)
Definition disarmInterval (h : Hook) : Hook :=
  match intervalRef h with
  | Some id => setIntervalRef None (clearInterval id (timers h)) h
  | None => h
  end.

(** [startRecording]; [granted] tells whether [getUserMedia] resolved with a
    stream or rejected. *)
Definition startRecording (granted : bool) (h : Hook) : Hook :=
  let h := setError None h in
  if granted then
    let h := setMediaRecorderRef (Some newRecorder) h in
    let h := setChunksRef [] h in
    match start newRecorder with
    | Some r =>
        let h := setMediaRecorderRef (Some r) h in
        let h := setIsRecording true h in
        let h := setRecordingTime (fun _ => 0%Z) h in
        armInterval h
    | None => setError (Some startFailedMsg) h
    end
  else setError (Some startFailedMsg) h.

(** The [ondataavailable] handler. *)
Definition ondataavailable (data : Blob) (h : Hook) : Hook :=
  if (0 <? size data)%nat then setChunksRef (chunksRef h ++ [data]) h else h.

(** What the promise returned by [stopRecording] has done when the call
    returns. *)
Inductive Settled : Type :=
| ResolvedNull
| Pending.

Definition stopRecording (h : Hook) : Hook * Settled :=
  match mediaRecorderRef h with
  | None => (h, ResolvedNull)
  | Some r =>
      if negb (isRecording h) then (h, ResolvedNull)
      else
        let h := setMediaRecorderRef (Some (stop (installOnstop r))) h in
        let h := setIsRecording false h in
        (disarmInterval h, Pending)
  end.

(** The [onstop] handler installed by [stopRecording]: it builds the blob,
    stops the tracks and resolves the promise with the blob. *)
Definition onstopHandler (h : Hook) : Hook * Blob :=
  let blob := newBlob (chunksRef h) "audio/webm" in
  let h :=
    match mediaRecorderRef h with
    | Some r => setMediaRecorderRef (Some (stopTracks r)) h
    | None => h
    end in
  (h, blob).

(** The platform dispatches the queued [stop] event; the result is the value
    the pending promise resolves with, if a handler ran. *)
Definition dispatchStop (h : Hook) : Hook * option Blob :=
  match mediaRecorderRef h with
  | Some r =>
      if stopQueued r then
        let h := setMediaRecorderRef (Some (dequeueStop r)) h in
        if onstop r then
          let (h', blob) := onstopHandler h in (h', Some blob)
        else (h, None)
      else (h, None)
  | None => (h, None)
  end.

(** How a synchronous handler ends. *)
Inductive Completion : Type :=
| Returned
| Threw (name : string).

Definition pauseRecording (h : Hook) : Hook * Completion :=
  match mediaRecorderRef h with
  | Some r =>
      if isRecording h then
        match pause r with
        | Some r' => (disarmInterval (setMediaRecorderRef (Some r') h), Returned)
        | None => (h, Threw "InvalidStateError")
        end
      else (h, Returned)
  | None => (h, Returned)
  end.

Definition resumeRecording (h : Hook) : Hook * Completion :=
  match mediaRecorderRef h with
  | Some r =>
      if isRecording h then
        match resume r with
        | Some r' => (armInterval (setMediaRecorderRef (Some r') h), Returned)
        | None => (h, Threw "InvalidStateError")
        end
      else (h, Returned)
  | None => (h, Returned)
  end.

(** One interval fires, if it is still active. *)
Definition timerFires (id : positive) (h : Hook) : Hook :=
  if existsb (Pos.eqb id) (active (timers h)) then tick h else h.

(** One second passes: every active interval fires once. *)
Definition secondElapses (h : Hook) : Hook :=
  fold_left (fun h' _ => tick h') (active (timers h)) h.

(** What can happen between [startRecording] and [stopRecording]. *)
Inductive Event : Type :=
| DataAvailable (data : Blob)
| TimerFires (id : positive)
| SecondElapses
| PauseRecording
| ResumeRecording.

Definition step (h : Hook) (e : Event) : Hook :=
  match e with
  | DataAvailable data => ondataavailable data h
  | TimerFires id => timerFires id h
  | SecondElapses => secondElapses h
  | PauseRecording => fst (pauseRecording h)
  | ResumeRecording => fst (resumeRecording h)
  end.

Definition run (evs : list Event) (h : Hook) : Hook := fold_left step evs h.

(** The chunks a run of events delivers, in arrival order. *)
Definition delivered (evs : list Event) : list Blob :=
  flat_map (fun e => match e with DataAvailable d => [d] | _ => [] end) evs.

Definition deliver (chunks : list Blob) (h : Hook) : Hook :=
  run (map DataAvailable chunks) h.

(** The status of section 3 of the design, read off the hook's state. *)
Inductive Status : Type := Idle | Recording | Paused.

Definition status (h : Hook) : Status :=
  match mediaRecorderRef h with
  | Some r =>
      if isRecording h then
        match state r with
        | paused => Paused
        | recording => Recording
        | inactive => Idle
        end
      else Idle
  | None => Idle
  end.

(** A session is live from [startRecording] to [stopRecording]: the hook
    says it records and its recorder is recording or paused. *)
Definition live (h : Hook) : Prop :=
  isRecording h = true
  /\ exists r, mediaRecorderRef h = Some r /\ state r <> inactive.

(** What the events of a session leave alone. *)
Definition sameSession (h h' : Hook) : Prop :=
  isRecording h' = isRecording h /\ chunksRef h' = chunksRef h
  /\ (live h -> live h').

(** The states of a session with no leaked interval: while recording exactly
    the interval in [intervalRef] is active, otherwise none is. *)
Definition tidy (h : Hook) : Prop :=
  match status h with
  | Recording => exists id, intervalRef h = Some id /\ active (timers h) = [id]
  | _ => intervalRef h = None /\ active (timers h) = []
  end.

End UseMediaRecorder.

(* ====================================================================== *)
(** ** What the handlers do to the outside: requests, toasts, routing     *)
(* ====================================================================== *)

Module World.
Import Platform.

(** [JSON.stringify] on an array of strings. *)
Definition dquote : string := String (ascii_of_nat 34) "".
Definition backslash : string := String (ascii_of_nat 92) "".

Definition hexDigit (n : nat) : string :=
  String (ascii_of_nat (if (n <? 10)%nat then 48 + n else 87 + n)) "".

Definition escapeChar (c : ascii) : string :=
  let n := JS.code c in
  if (n =? 8)%nat then backslash ++ "b"
  else if (n =? 9)%nat then backslash ++ "t"
  else if (n =? 10)%nat then backslash ++ "n"
  else if (n =? 12)%nat then backslash ++ "f"
  else if (n =? 13)%nat then backslash ++ "r"
  else if (n =? 34)%nat then backslash ++ dquote
  else if (n =? 92)%nat then backslash ++ backslash
  else if (n <? 32)%nat
       then backslash ++ "u00" ++ hexDigit (n / 16) ++ hexDigit (n mod 16)
  else String c "".

Fixpoint escape (s : string) : string :=
  match s with
  | EmptyString => EmptyString
  | String c r => escapeChar c ++ escape r
  end.

Definition quoteJSONString (s : string) : string := dquote ++ escape s ++ dquote.

Definition stringify (l : list string) : string :=
  "[" ++ String.concat "," (map quoteJSONString l) ++ "]".

(** A [FormData] body: entries in the order of the [append] calls. *)
Inductive FormValue : Type :=
| FileField (b : Blob)
| TextField (s : string).

Definition FormData : Type := list (string * FormValue).

Record Request : Type := mkRequest {
  url : string;
  method : string;
  headers : list (string * string);
  body : FormData
}.

(** The JSON objects the backend sends ([ApiResponse]): what the client reads
    of them is [message], [error] and [data]; [message] and [error], where
    present, are strings, as [ApiResponse] declares them. *)
Record Body : Type := mkBody {
  message : option string;
  error : option string;
  data : option string
}.

(** What [response.json()] gives:
    - an object;
    - the value [null]: reading a member of it throws a [TypeError], whose
      text is the engine's;
    - a number, a string, a boolean or an array, by its JSON text: a value
      with none of the members the client reads;
    - a rejection with a [SyntaxError], when the body is no JSON text. *)
Inductive Json : Type :=
| Parsed (b : Body)
| ParsedNull (engineText : string)
| ParsedBare (text : string)
| ParseError (msg : string).

Record Response : Type := mkResponse {
  status : Z;
  json : Json
}.

Definition ok (r : Response) : bool :=
  ((200 <=? status r) && (status r <=? 299))%Z.

(** [fetch] rejects with a [TypeError] on a network failure, and resolves
    with the response otherwise, whatever its status. *)
Inductive FetchOutcome : Type :=
| NetworkFailure (msg : string)
| Responded (r : Response).

(** A thrown value: an [Error] object (by name and message) or anything
    else. *)
Inductive Thrown : Type :=
| ErrorObject (name msg : string)
| NotAnError.

Record Toast : Type := mkToast {
  toastTitle : string;
  description : string;
  destructive : bool
}.

Inductive Effect : Type :=
| Fetch (req : Request)
| ConsoleLog (what : string)
| ConsoleError (what : string)
| ShowToast (t : Toast)
| CloseModal
| Navigate (path : string).

Definition isFetch (e : Effect) : bool :=
  match e with Fetch _ => true | _ => false end.

Definition networkCalls (tr : list Effect) : list Effect := filter isFetch tr.

Definition requestsOf (tr : list Effect) : list Request :=
  flat_map (fun e => match e with Fetch r => [r] | _ => [] end) tr.

Definition toastsOf (tr : list Effect) : list Toast :=
  flat_map (fun e => match e with ShowToast t => [t] | _ => [] end) tr.

(** Time stamps are milliseconds since the epoch. *)
Definition Date : Type := Z.

End World.

(* ====================================================================== *)
(** ** services/apiService.ts                                             *)
(* ====================================================================== *)

Module ApiService.
Import Platform World.

Definition BASE_URL (production : bool) : string :=
  if production then "https://your-production-api.com/api" else "/api".

Definition PROCESS_MEETING : string := "/meetings/process".

Record CreateMeetingRequest : Type := mkCreate {
  title : string;
  date : string;
  participants : list string;
  recordingBlob : Blob
}.

(** [a || b] on an optional string field: the first truthy one. *)
Definition orElse (a : option string) (b : string) : string :=
  match a with
  | Some s => if JS.truthy s then s else b
  | None => b
  end.

Definition unexpectedMsg : string := "An unexpected error occurred".

(** [handleApiError]: always throws; the result is what it logged and the
    error it threw. *)
Definition handleApiError (response : Response) (context : string)
  : list Effect * Thrown :=
  let errorMessage := unexpectedMsg in
  match json response with
  | Parsed errorData =>
      let errorMessage :=
        orElse (message errorData) (orElse (error errorData) errorMessage) in
      ([ConsoleError ("API Error in " ++ context ++ ":")],
       ErrorObject "Error" errorMessage)
  | ParsedBare _ =>
      (* [errorData.message] and [errorData.error] are [undefined] *)
      ([ConsoleError ("API Error in " ++ context ++ ":")],
       ErrorObject "Error" errorMessage)
  | ParsedNull _ | ParseError _ =>
      (* [errorData.message] on [null], or [response.json()], throws inside
         the [try] *)
      ([ConsoleError ("Failed to parse error response in " ++ context ++ ":")],
       ErrorObject "Error" errorMessage)
  end.

(** [`Bearer ${getAccessToken()}`] *)
Definition bearer (token : option string) : string :=
  "Bearer " ++ match token with Some t => t | None => "null" end.

Definition formDataOf (meetingData : CreateMeetingRequest) : FormData :=
  [ ("recording", FileField (recordingBlob meetingData));
    ("title", TextField (title meetingData));
    ("date", TextField (date meetingData));
    ("participants", TextField (stringify (participants meetingData))) ].

(** What [data.data || data] is: the [data] member of the body, the body
    itself, or a body that is no object. *)
Inductive Answer : Type :=
| InnerData (inner : string)
| WholeBody (b : Body)
| BareValue (text : string).

(** [processMeeting]: [production] and [token] are the build mode and the
    stored access token, [net] is what [fetch] does with the request.  The
    result is the trace of effects and what the call throws or returns
    ([data.data || data]). *)
Definition processMeeting (production : bool) (token : option string)
    (meetingData : CreateMeetingRequest) (net : FetchOutcome)
  : list Effect * (Thrown + Answer) :=
  let formData := formDataOf meetingData in
  let request :=
    {| url := BASE_URL production ++ PROCESS_MEETING;
       method := "POST";
       headers := [("Authorization", bearer token)];
       body := formData |} in
  match net with
  | NetworkFailure msg => ([Fetch request], inl (ErrorObject "TypeError" msg))
  | Responded response =>
      if negb (ok response) then
        let (logged, err) := handleApiError response "processMeeting" in
        (Fetch request :: logged, inl err)
      else
        match json response with
        | ParseError msg => ([Fetch request], inl (ErrorObject "SyntaxError" msg))
        | ParsedNull engineText =>
            (* [data.meeting] on [null] throws before anything is logged *)
            ([Fetch request], inl (ErrorObject "TypeError" engineText))
        | ParsedBare text =>
            ([Fetch request; ConsoleLog "Meeting processing initiated:"],
             inr (BareValue text))
        | Parsed d =>
            ([Fetch request; ConsoleLog "Meeting processing initiated:"],
             inr (match data d with
                  | Some inner =>
                      if JS.truthy inner then InnerData inner else WholeBody d
                  | None => WholeBody d
                  end))
        end
  end.

Definition fieldNames (f : FormData) : list string := map fst f.

End ApiService.

(* ====================================================================== *)
(** ** components/RecordingSubmissionModal.tsx                            *)
(* ====================================================================== *)

Module SubmissionModal.
Import Platform World.

Record Props : Type := mkProps {
  recordingBlob : option Blob;
  recordingDuration : Z
}.

Record Modal : Type := mkModal {
  emails : list string;
  meetingTitle : string;
  meetingDate : Date;
  isSubmitting : bool
}.

Definition setIsSubmitting (b : bool) (st : Modal) : Modal :=
  {| emails := emails st; meetingTitle := meetingTitle st;
     meetingDate := meetingDate st; isSubmitting := b |}.

(** [setEmails([]); setMeetingTitle(''); setMeetingDate(new Date())] *)
Definition resetForm (now : Date) (st : Modal) : Modal :=
  {| emails := []; meetingTitle := ""; meetingDate := now;
     isSubmitting := isSubmitting st |}.

Definition missingToast : Toast :=
  {| toastTitle := "Missing Information";
     description := "Please fill in all required fields.";
     destructive := true |}.

Definition successToast (meetingTitle : string) : Toast :=
  {| toastTitle := "Meeting Submitted Successfully!";
     description :=
       "Your meeting " ++ dquote ++ meetingTitle ++ dquote
       ++ " is being processed. You'll see it in your dashboard shortly.";
     destructive := false |}.

(** [error instanceof Error ? error.message : "Failed to submit ..."] *)
Definition failureReason (err : Thrown) : string :=
  match err with
  | ErrorObject _ msg => msg
  | NotAnError => "Failed to submit the meeting. Please try again."
  end.

Definition failedToast (err : Thrown) : Toast :=
  {| toastTitle := "Submission Failed";
     description := failureReason err;
     destructive := true |}.

(** A run of [handleSubmit]: the state rendered while the request is awaited
    (if the handler got that far), the state when the handler is done, and
    the effects in order. *)
Record Run : Type := mkRun {
  inFlight : option Modal;
  final : Modal;
  trace : list Effect
}.

Section Handlers.

(** [Date.prototype.toISOString], the build mode, the stored access token
    and the clock ([new Date()]). *)
Variable toISOString : Date -> string.
Variable production : bool.
Variable token : option string.
Variable now : Date.

Definition rejected (st : Modal) : Run :=
  {| inFlight := None; final := st; trace := [ShowToast missingToast] |}.

Definition handleSubmit (props : Props) (st : Modal) (net : FetchOutcome) : Run :=
  match recordingBlob props with
  | None => rejected st
  | Some blob =>
      if (List.length (emails st) =? 0)%nat || negb (JS.truthy (meetingTitle st))
      then rejected st
      else
        let submitting := setIsSubmitting true st in
        let meetingData :=
          {| ApiService.title := meetingTitle st;
             ApiService.date := toISOString (meetingDate st);
             ApiService.participants := emails st;
             ApiService.recordingBlob := blob |} in
        match ApiService.processMeeting production token meetingData net with
        | (effects, inr _) =>
            {| inFlight := Some submitting;
               final := setIsSubmitting false (resetForm now submitting);
               trace := effects ++ [ShowToast (successToast (meetingTitle st));
                                    CloseModal; Navigate "/"] |}
        | (effects, inl err) =>
            {| inFlight := Some submitting;
               final := setIsSubmitting false submitting;
               trace := effects ++ [ConsoleError "Meeting submission error:";
                                    ShowToast (failedToast err)] |}
        end
  end.

(** [emails.length > 0 && meetingTitle.trim() && !isSubmitting], as the
    boolean [disabled={!canSubmit}] reads it. *)
Definition canSubmit (st : Modal) : bool :=
  (0 <? List.length (emails st))%nat
  && JS.truthy (JS.trim (meetingTitle st))
  && negb (isSubmitting st).

(** The browser's constraint validation of the e-mail input of
    [EmailChipInput] ([type="email"], not required): whether the text
    standing in it is a type mismatch. *)
Variable typeMismatch : string -> bool.

(** The form has no [noValidate]: before the [submit] event the browser
    validates the controls of the form, which are the e-mail input, with the
    text [pending] in it, and the title input, which is [required]. *)
Definition checkValidity (pending : string) (st : Modal) : bool :=
  negb (typeMismatch pending) && JS.truthy (meetingTitle st).

(** Submitting the form through its submit button, with the text [pending]
    standing in the e-mail input: a disabled button submits nothing; an
    enabled one has the browser validate the form, and an invalid control
    is reported to the user with no [submit] event; otherwise
    [onSubmit={handleSubmit}] runs. *)
Definition submitButton (pending : string) (props : Props) (st : Modal)
    (net : FetchOutcome) : Run :=
  if negb (canSubmit st)
  then {| inFlight := None; final := st; trace := [] |}
  else if negb (checkValidity pending st)
  then {| inFlight := None; final := st; trace := [] |}
  else handleSubmit props st net.

End Handlers.

(** The state and the trace of a submit that did nothing. *)
Definition inert (st : Modal) : Run :=
  {| inFlight := None; final := st; trace := [] |}.

(** The reason a failed transport leaves with the user: the message of the
    [fetch] failure, or what [handleApiError] makes of the response. *)
Definition reasonOf (net : FetchOutcome) : string :=
  match net with
  | NetworkFailure msg => msg
  | Responded r =>
      match json r with
      | Parsed b =>
          ApiService.orElse (message b)
            (ApiService.orElse (error b) ApiService.unexpectedMsg)
      | ParsedNull _ | ParsedBare _ | ParseError _ => ApiService.unexpectedMsg
      end
  end.

(** A draft that passes the checks of [handleSubmit]. *)
Definition validDraft (props : Props) (st : Modal) : Prop :=
  recordingBlob props <> None /\ emails st <> [] /\ meetingTitle st <> "".

(** A body that [processMeeting] can read its members of: any JSON value
    but [null]. *)
Definition readable (j : Json) : bool :=
  match j with
  | Parsed _ | ParsedBare _ => true
  | ParsedNull _ | ParseError _ => false
  end.

(** The transport fails: [fetch] rejects, or the response has a non-success
    status. *)
Definition transportFails (net : FetchOutcome) : Prop :=
  match net with
  | NetworkFailure _ => True
  | Responded r => ok r = false
  end.

(** A sample draft and sample responses, for the worked cases below. *)

Definition isoOf (d : Date) : string := "2024-01-15T10:00:00.000Z".

Definition someBlob : Blob := {| bytes := [Byte.x1a; Byte.x45]; type := "audio/webm" |}.

Definition standup : Modal :=
  {| emails := ["a@x.com"]; meetingTitle := "Standup";
     meetingDate := 1705312800000%Z; isSubmitting := false |}.

Definition standupProps : Props :=
  {| recordingBlob := Some someBlob; recordingDuration := 42 |}.

Definition unavailable : Response :=
  {| status := 503;
     json := Parsed {| message := Some "Service unavailable";
                       error := None; data := None |} |}.

Definition badGateway : Response :=
  {| status := 502;
     json := Parsed {| message := Some "Failed to fetch";
                       error := None; data := None |} |}.

Definition created : Response :=
  {| status := 200;
     json := Parsed {| message := None; error := None; data := Some "m1" |} |}.

(** Two browsers for the worked cases: one whose e-mail input accepts every
    text, and one that holds a text without an at-sign for a mismatch. *)
Definition noMismatch (pending : string) : bool := false.

Definition wantsAtSign (pending : string) : bool :=
  match String.index 0 "@" pending with
  | Some _ => false
  | None => JS.truthy pending
  end.

End SubmissionModal.

(* ====================================================================== *)
(** ** components/EmailChipInput.tsx: the handlers of the text input      *)
(* ====================================================================== *)

Module EmailChipKeys.
Import JS EmailChipInput.

(** The input's [onChange]: [setInputValue(e.target.value); setError('')]. *)
Definition onInputChange (value : string) (st : Chips) : Chips :=
  {| emails := emails st; inputValue := value; error := "" |}.

(** [emails[emails.length - 1]], [undefined] on an empty array. *)
Definition lastEmail (l : list string) : option string :=
  nth_error l (length l - 1).

Definition isDelimiter (key : string) : bool :=
  String.eqb key "Enter" || String.eqb key "," || String.eqb key " ".

Definition handleKeyDown (key : string) (st : Chips) : Chips :=
  if isDelimiter key then addEmail st (inputValue st)
  else if String.eqb key "Backspace" && negb (truthy (inputValue st))
          && (0 <? length (emails st))%nat
  then match lastEmail (emails st) with
       | Some e => removeEmail st e
       | None => st
       end
  else st.

Definition handleBlur (st : Chips) : Chips :=
  if truthy (trim (inputValue st)) then addEmail st (inputValue st) else st.

(** The button of the chip at position [index]: [removeEmail(email)]. *)
Definition clickRemove (index : nat) (st : Chips) : Chips :=
  match nth_error (emails st) index with
  | Some email => removeEmail st email
  | None => st
  end.

(** What the user can do to the component. *)
Inductive Input : Type :=
| Change (value : string)
| KeyDown (key : string)
| Blur
| ClickRemove (index : nat).

Definition react (st : Chips) (i : Input) : Chips :=
  match i with
  | Change v => onInputChange v st
  | KeyDown k => handleKeyDown k st
  | Blur => handleBlur st
  | ClickRemove n => clickRemove n st
  end.

Definition session (inputs : list Input) (st : Chips) : Chips :=
  fold_left react inputs st.

(** The component as the modal mounts it: no participant, empty input. *)
Definition mounted : Chips := {| emails := []; inputValue := ""; error := "" |}.

End EmailChipKeys.

(* ====================================================================== *)
(** ** Sessions of the recorder hook, and components/RecordingControls.tsx *)
(* ====================================================================== *)

Module Session.
Import Platform UseMediaRecorder.

(** The firings that count in a run in which [resumeRecording] is called
    only while paused.  [pausedNow] tells whether the session is paused when
    the run starts, [current] is the handle of the interval set last, by
    [startRecording] or by [resumeRecording]: handles are given out in
    sequence, so each resume moves on to the next one.  A firing counts
    when the session is not paused and the interval is the current one.  No
    clock is modelled: what is counted are callbacks of the interval, not
    seconds. *)
Fixpoint counted (pausedNow : bool) (current : positive) (evs : list Event) : nat :=
  match evs with
  | [] => 0
  | DataAvailable _ :: r => counted pausedNow current r
  | TimerFires id :: r =>
      (if negb pausedNow && Pos.eqb id current then 1 else 0)
      + counted pausedNow current r
  | SecondElapses :: r => (if pausedNow then 0 else 1) + counted pausedNow current r
  | PauseRecording :: r => counted true current r
  | ResumeRecording :: r => counted false (Pos.succ current) r
  end.

(** Runs in which [resumeRecording] is called only while paused. *)
Fixpoint orderly (pausedNow : bool) (evs : list Event) : bool :=
  match evs with
  | [] => true
  | DataAvailable _ :: r => orderly pausedNow r
  | TimerFires _ :: r => orderly pausedNow r
  | SecondElapses :: r => orderly pausedNow r
  | PauseRecording :: r => orderly true r
  | ResumeRecording :: r => pausedNow && orderly false r
  end.

Definition nonEmpty (d : Blob) : bool := (0 <? size d)%nat.

(** A session with no leaked interval that is paused or recording, with
    [t] seconds counted so far. *)
Definition phase (pausedNow : bool) (t : Z) (h : Hook) : Prop :=
  tidy h
  /\ status h = (if pausedNow then Paused else Recording)
  /\ recordingTime h = t.

(** The same, with the interval named: [current] is the handle given out
    last, and while recording it is the one in [intervalRef], alone
    active. *)
Definition counting (pausedNow : bool) (current : positive) (t : Z) (h : Hook)
  : Prop :=
  status h = (if pausedNow then Paused else Recording)
  /\ recordingTime h = t
  /\ next (timers h) = Pos.succ current
  /\ intervalRef h = (if pausedNow then None else Some current)
  /\ active (timers h) = (if pausedNow then [] else [current]).

End Session.

Module RecordingControls.
Import Platform World UseMediaRecorder.

(** The component's own state beside the hook's. *)
Record Controls : Type := mkControls {
  hook : Hook;
  showSubmissionModal : bool;
  recordingBlob : option Blob
}.

Definition fresh : Controls :=
  {| hook := initial; showSubmissionModal := false; recordingBlob := None |}.

Definition setHook (h : Hook) (c : Controls) : Controls :=
  {| hook := h; showSubmissionModal := showSubmissionModal c;
     recordingBlob := recordingBlob c |}.

Definition startedToast : Toast :=
  {| toastTitle := "Recording Started";
     description := "Your meeting is now being recorded.";
     destructive := false |}.

Definition startFailedToast : Toast :=
  {| toastTitle := "Recording Failed";
     description :=
       "Failed to start recording. Please check your microphone permissions.";
     destructive := true |}.

Definition stoppedToast : Toast :=
  {| toastTitle := "Recording Stopped";
     description := "Complete the meeting details to process your recording.";
     destructive := false |}.

(** The promise of the hook's [startRecording]: the whole body sits in a
    [try] whose [catch] only records the error, so the promise is always
    fulfilled. *)
Definition awaitStartRecording (granted : bool) (h : Hook) : Hook * Completion :=
  (startRecording granted h, Returned).

Definition handleStartRecording (granted : bool) (c : Controls)
  : Controls * list Effect :=
  match awaitStartRecording granted (hook c) with
  | (h, Returned) => (setHook h c, [ShowToast startedToast])
  | (h, Threw _) => (setHook h c, [ShowToast startFailedToast])
  end.

(** [handleStopRecording]; [flush] is what the recorder still delivers
    before its [stop] event.  A promise that never settles leaves the
    handler waiting. *)
Definition handleStopRecording (flush : list Blob) (c : Controls)
  : Controls * list Effect :=
  match stopRecording (hook c) with
  | (h, ResolvedNull) => (setHook h c, [])
  | (h, Pending) =>
      match dispatchStop (deliver flush h) with
      | (h', Some blob) =>
          ({| hook := h'; showSubmissionModal := true; recordingBlob := Some blob |},
           [ShowToast stoppedToast])
      | (h', None) => (setHook h' c, [])
      end
  end.

Definition handleCloseModal (c : Controls) : Controls :=
  {| hook := hook c; showSubmissionModal := false; recordingBlob := None |}.

(** What is rendered.  With an error the component returns the error box
    alone: no button, no modal. *)
Definition errorShown (c : Controls) : bool :=
  match error (hook c) with
  | Some msg => JS.truthy msg
  | None => false
  end.

Definition startButton (c : Controls) : bool :=
  negb (errorShown c) && negb (isRecording (hook c)).

Definition stopButton (c : Controls) : bool :=
  negb (errorShown c) && isRecording (hook c).

(** The props of the submission modal, when it is rendered. *)
Definition modalProps (c : Controls) : option SubmissionModal.Props :=
  if errorShown c then None
  else Some {| SubmissionModal.recordingBlob := recordingBlob c;
               SubmissionModal.recordingDuration := recordingTime (hook c) |}.

Definition modalOpen (c : Controls) : bool :=
  negb (errorShown c) && showSubmissionModal c.

(** What the user can click; a control that is not rendered cannot be. *)
Inductive Click : Type :=
| ClickStart (granted : bool)
| ClickStop (flush : list Blob)
| ClickClose.

Definition click (c : Controls) (k : Click) : Controls :=
  match k with
  | ClickStart granted =>
      if startButton c then fst (handleStartRecording granted c) else c
  | ClickStop flush =>
      if stopButton c then fst (handleStopRecording flush c) else c
  | ClickClose =>
      if modalOpen c then handleCloseModal c else c
  end.

Definition clicks (ks : list Click) (c : Controls) : Controls := fold_left click ks c.

End RecordingControls.

(* ====================================================================== *)
(** ** The elapsed-time display                                           *)
(* ====================================================================== *)

Module Clock.

(** The code's numbers are doubles.  The integers a double holds exactly,
    one by one, are the safe integers ([Number.isSafeInteger]); this module
    models the code's arithmetic on them, and gives no answer outside. *)
Definition MAX_SAFE_INTEGER : Z := 9007199254740991.

Definition isSafeInteger (n : Z) : bool :=
  ((- MAX_SAFE_INTEGER <=? n) && (n <=? MAX_SAFE_INTEGER))%Z.

(** The decimal numeral of an integer. *)
Definition numeral (n : Z) : string := NilEmpty.string_of_int (Z.to_int n).

(** [Number.prototype.toString]: on a safe integer, its decimal numeral. *)
Definition toString (n : Z) : option string :=
  if isSafeInteger n then Some (numeral n) else None.

Fixpoint zeros (n : nat) : string :=
  match n with
  | O => EmptyString
  | S k => String "0" (zeros k)
  end.

(** [s.padStart(targetLength, '0')] *)
Definition padStart (targetLength : nat) (s : string) : string :=
  zeros (targetLength - String.length s) ++ s.

(** [formatRecordingDuration] of the submission modal, on a number of
    seconds that is a safe integer.  There the double [seconds / 60] lies
    within 1/64 of the exact quotient, which is a whole number or at least
    1/60 away from the next one, so that [Math.floor] of it is the floor
    quotient; [%] is exact and takes the sign of the dividend; and both
    results are safe integers again.  Outside the safe integers the model
    gives no answer. *)
Definition formatRecordingDuration (seconds : Z) : option string :=
  if isSafeInteger seconds then
    let minutes := (seconds / 60)%Z in
    let remainingSeconds := Z.rem seconds 60 in
    match toString minutes, toString remainingSeconds with
    | Some m, Some r => Some (m ++ ":" ++ padStart 2 r)%string
    | _, _ => None
    end
  else None.

(** [formatTime] of the recording controls: the same text. *)
Definition formatTime (seconds : Z) : option string :=
  if isSafeInteger seconds then
    let minutes := (seconds / 60)%Z in
    let remainingSeconds := Z.rem seconds 60 in
    match toString minutes, toString remainingSeconds with
    | Some m, Some r => Some (m ++ ":" ++ padStart 2 r)%string
    | _, _ => None
    end
  else None.

(** Reading the display back, to state that it loses nothing: a decimal
    numeral, and a text [m:ss] cut at its first colon. *)
Definition readInt (s : string) : option Z :=
  option_map Z.of_int (NilEmpty.int_of_string s).

Fixpoint cutAtColon (s : string) : option (string * string) :=
  match s with
  | EmptyString => None
  | String c r =>
      if Ascii.eqb c ":"%char then Some (EmptyString, r)
      else match cutAtColon r with
           | Some (a, b) => Some (String c a, b)
           | None => None
           end
  end.

Definition readClock (s : string) : option Z :=
  match cutAtColon s with
  | Some (m, ss) =>
      match readInt m, readInt ss with
      | Some a, Some b => Some (a * 60 + b)%Z
      | _, _ => None
      end
  | None => None
  end.

Definition isDigit (c : ascii) : bool :=
  ((48 <=? JS.code c) && (JS.code c <=? 57))%nat.

End Clock.

(* ====================================================================== *)
(** ** services/apiService.ts: tokens, [makeRequest], [logout]            *)
(* ====================================================================== *)

Module Auth.
Import World.

(** [localStorage]: a key has a string or nothing. *)
Definition Storage : Type := string -> option string.

Definition getItem (key : string) (s : Storage) : option string := s key.

Definition setItem (key value : string) (s : Storage) : Storage :=
  fun k => if String.eqb k key then Some value else s k.

Definition removeItem (key : string) (s : Storage) : Storage :=
  fun k => if String.eqb k key then None else s k.

Definition emptyStorage : Storage := fun _ => None.

Definition ACCESS_TOKEN : string := "meetingSummarizer_accessToken".
Definition REFRESH_TOKEN : string := "meetingSummarizer_refreshToken".
Definition USER_PROFILE : string := "meetingSummarizer_userProfile".
Definition TOKEN_EXPIRATION : string := "tokenExpiration".

Record AuthTokens : Type := mkTokens {
  accessToken : string;
  refreshToken : string;
  expiresIn : Z
}.

Definition getAccessToken (s : Storage) : option string := getItem ACCESS_TOKEN s.
Definition getRefreshToken (s : Storage) : option string := getItem REFRESH_TOKEN s.

(** [storeTokens]; [nowMs] is [Date.now()] and [expiresIn] a whole number
    of seconds.  The expiry written is the code's where the lifetime in
    milliseconds and its sum with the clock are safe integers
    ([Clock.isSafeInteger]: a double holds them exactly); beyond, the
    code's sum is a rounded double, which this model does not follow.
    Nothing the client does depends on the expiry: it is written here,
    removed by [clearAuthData], and never read. *)
Definition storeTokens (nowMs : Z) (tokens : AuthTokens) (s : Storage) : Storage :=
  let s := setItem ACCESS_TOKEN (accessToken tokens) s in
  let s := setItem REFRESH_TOKEN (refreshToken tokens) s in
  let expirationTime := (nowMs + expiresIn tokens * 1000)%Z in
  setItem TOKEN_EXPIRATION (Clock.numeral expirationTime) s.

(** [storeTokens] on a value that is no object ([data.data] a string, a
    number, a boolean): its members are [undefined]. *)
Definition storeUndefinedTokens (s : Storage) : Storage :=
  let s := setItem ACCESS_TOKEN "undefined" s in
  let s := setItem REFRESH_TOKEN "undefined" s in
  setItem TOKEN_EXPIRATION "NaN" s.

Definition clearAuthData (s : Storage) : Storage :=
  let s := removeItem ACCESS_TOKEN s in
  let s := removeItem REFRESH_TOKEN s in
  let s := removeItem USER_PROFILE s in
  removeItem TOKEN_EXPIRATION s.

(** A stored string that is there and not empty. *)
Definition present (v : option string) : bool :=
  match v with
  | Some t => JS.truthy t
  | None => false
  end.

(** [!!(accessToken && refreshToken)] *)
Definition isAuthenticated (s : Storage) : bool :=
  present (getAccessToken s) && present (getRefreshToken s).

(** A request with a JSON body, as [makeRequest] sends it. *)
Record ApiRequest : Type := mkApiRequest {
  url : string;
  method : string;
  headers : list (string * string);
  body : option string
}.

(** The [data] member of a reply: a token pair, or a value without
    members. *)
Inductive Payload : Type :=
| TokenPair (t : AuthTokens)
| Primitive (text : string).

Record ApiBody : Type := mkApiBody {
  message : option string;
  error : option string;
  data : option Payload
}.

Inductive ReplyBody : Type :=
| Json (b : ApiBody)
| NotJson (msg : string).

Inductive Reply : Type :=
| Rejects (msg : string)
| Responds (status : Z) (b : ReplyBody).

(** The network: what the [n]-th request of the page is answered with. *)
Definition Server : Type := nat -> ApiRequest -> Reply.

Inductive Note : Type :=
| Sent (r : ApiRequest)
| Console (level text : string).

Record Browser : Type := mkBrowser {
  storage : Storage;
  href : option string;
  notes : list Note
}.

Definition sentOf (l : list Note) : list ApiRequest :=
  flat_map (fun n => match n with Sent r => [r] | Console _ _ => [] end) l.

Definition note (n : Note) (b : Browser) : Browser :=
  {| storage := storage b; href := href b; notes := notes b ++ [n] |}.

Definition setStorage (s : Storage) (b : Browser) : Browser :=
  {| storage := s; href := href b; notes := notes b |}.

Definition setHref (h : string) (b : Browser) : Browser :=
  {| storage := storage b; href := Some h; notes := notes b |}.

Definition fetch (server : Server) (r : ApiRequest) (b : Browser) : Browser * Reply :=
  (note (Sent r) b, server (length (sentOf (notes b))) r).

Definition okStatus (status : Z) : bool := ((200 <=? status) && (status <=? 299))%Z.

(** What [handleApiError] reads of a reply. *)
Definition asResponse (status : Z) (rb : ReplyBody) : Response :=
  {| World.status := status;
     json := match rb with
             | Json d => Parsed {| World.message := message d;
                                   World.error := error d;
                                   World.data := None |}
             | NotJson msg => ParseError msg
             end |}.

Definition noteEffect (e : Effect) : Note :=
  match e with
  | ConsoleError t => Console "error" t
  | ConsoleLog t => Console "log" t
  | _ => Console "log" ""
  end.

(** [JSON.stringify({ refreshToken })] *)
Definition refreshBody (refreshToken : string) : string :=
  "{" ++ dquote ++ "refreshToken" ++ dquote ++ ":"
      ++ quoteJSONString refreshToken ++ "}".

Inductive Outcome : Type :=
| Resolved (value : ApiBody + Payload)
| Rejected (err : Thrown).

Section Service.

Variable production : bool.
Variable server : Server.
Variable nowMs : Z.

Definition undefinedDataText : string :=
  "Cannot read properties of undefined (reading 'accessToken')".

(** [refreshAccessToken]: [None] when it returns, the error when it throws. *)
Definition refreshAccessToken (b : Browser) : Browser * option Thrown :=
  if negb (present (getRefreshToken (storage b)))
  then (b, Some (ErrorObject "Error" "No refresh token available"))
  else
    let refreshToken :=
      match getRefreshToken (storage b) with Some t => t | None => "" end in
    let request :=
      {| url := ApiService.BASE_URL production ++ "/auth/refresh";
         method := "POST";
         headers := [("Content-Type", "application/json")];
         body := Some (refreshBody refreshToken) |} in
    let (b, reply) := fetch server request b in
    match reply with
    | Rejects msg => (b, Some (ErrorObject "TypeError" msg))
    | Responds status rb =>
        if negb (okStatus status)
        then (b, Some (ErrorObject "Error" "Failed to refresh token"))
        else
          match rb with
          | NotJson msg => (b, Some (ErrorObject "SyntaxError" msg))
          | Json d =>
              match data d with
              | None => (b, Some (ErrorObject "TypeError" undefinedDataText))
              | Some (TokenPair t) =>
                  (setStorage (storeTokens nowMs t (storage b)) b, None)
              | Some (Primitive _) =>
                  (setStorage (storeUndefinedTokens (storage b)) b, None)
              end
          end
    end.

(** [headers['Authorization'] = value] on the headers object. *)
Fixpoint setHeader (name value : string) (h : list (string * string))
  : list (string * string) :=
  match h with
  | [] => [(name, value)]
  | (n, v) :: r =>
      if String.eqb n name then (n, value) :: r else (n, v) :: setHeader name value r
  end.

(** The end of [makeRequest]: [handleApiError] on a failure status,
    otherwise [data.data || data]. *)
Definition settle (endpoint : string) (status : Z) (rb : ReplyBody) (b : Browser)
  : Browser * Outcome :=
  if negb (okStatus status) then
    let (logged, err) := ApiService.handleApiError (asResponse status rb) endpoint in
    (fold_left (fun b' e => note (noteEffect e) b') logged b, Rejected err)
  else
    match rb with
    | NotJson msg => (b, Rejected (ErrorObject "SyntaxError" msg))
    | Json d =>
        (b, Resolved (match data d with
                      | Some (Primitive t) =>
                          if JS.truthy t then inr (Primitive t) else inl d
                      | Some p => inr p
                      | None => inl d
                      end))
    end.

(** The [catch] around the refresh and the retry. *)
Definition sessionExpired (b : Browser) : Browser * Outcome :=
  let b := note (Console "error" "Token refresh failed:") b in
  let b := setStorage (clearAuthData (storage b)) b in
  let b := setHref "/login" b in
  (b, Rejected (ErrorObject "Error" "Session expired. Please log in again.")).

(** [makeRequest]; its callers pass a method and, at most, a body in
    [options], never headers of their own. *)
Definition makeRequest (endpoint method : string) (body : option string)
    (requiresAuth : bool) (b : Browser) : Browser * Outcome :=
  let url := (ApiService.BASE_URL production ++ endpoint)%string in
  let headers := [("Content-Type", "application/json")] in
  let headers :=
    if requiresAuth then
      match getAccessToken (storage b) with
      | Some token =>
          if JS.truthy token
          then setHeader "Authorization" ("Bearer " ++ token) headers
          else headers
      | None => headers
      end
    else headers in
  let request h := {| url := url; method := method; headers := h; body := body |} in
  let (b, reply) := fetch server (request headers) b in
  match reply with
  | Rejects msg => (b, Rejected (ErrorObject "TypeError" msg))
  | Responds status rb =>
      if (status =? 401)%Z && requiresAuth then
        let b := note (Console "log" "Access token expired, attempting refresh...") b in
        match refreshAccessToken b with
        | (b, Some _) => sessionExpired b
        | (b, None) =>
            if present (getAccessToken (storage b)) then
              let newToken :=
                match getAccessToken (storage b) with Some t => t | None => "" end in
              let headers := setHeader "Authorization" ("Bearer " ++ newToken) headers in
              let (b, again) := fetch server (request headers) b in
              match again with
              | Rejects _ => sessionExpired b
              | Responds status' rb' => settle endpoint status' rb' b
              end
            else settle endpoint status rb b
        end
      else settle endpoint status rb b
  end.

(** [logout]: it never throws. *)
Definition logout (b : Browser) : Browser :=
  let b :=
    if present (getRefreshToken (storage b)) then
      let refreshToken :=
        match getRefreshToken (storage b) with Some t => t | None => "" end in
      match makeRequest "/auth/logout" "POST" (Some (refreshBody refreshToken)) true b with
      | (b, Resolved _) => b
      | (b, Rejected _) => note (Console "warn" "Logout request failed:") b
      end
    else b in
  let b := setStorage (clearAuthData (storage b)) b in
  note (Console "log" "Local authentication data cleared") b.

End Service.

(** The requests one call has sent. *)
Definition sentBy (before after : Browser) : nat :=
  length (sentOf (notes after)) - length (sentOf (notes before)).

Definition hasHeader (name : string) (r : ApiRequest) : bool :=
  existsb (fun h => String.eqb (fst h) name) (headers r).

(** Two stores that agree outside the four keys of the authentication
    data. *)
Definition sameElsewhere (s s' : Storage) : Prop :=
  forall k, k <> ACCESS_TOKEN -> k <> REFRESH_TOKEN -> k <> USER_PROFILE ->
            k <> TOKEN_EXPIRATION -> getItem k s' = getItem k s.

(** A store without authentication data. *)
Definition loggedOut (s : Storage) : Prop :=
  getAccessToken s = None /\ getRefreshToken s = None
  /\ getItem USER_PROFILE s = None /\ getItem TOKEN_EXPIRATION s = None.

Definition sessionExpiredError : Thrown :=
  ErrorObject "Error" "Session expired. Please log in again.".

End Auth.

(* ====================================================================== *)
(** * Properties                                                          *)
(* ====================================================================== *)

(** ** Strings *)

Module JSFacts.
Import JS.

Ltac each_char c :=
  destruct c as [[] [] [] [] [] [] [] []]; reflexivity.

Lemma isWhiteSpace_lowerChar (c : ascii) :
  isWhiteSpace (lowerChar c) = isWhiteSpace c.
Proof. each_char c. Qed.

Lemma lowerChar_idem (c : ascii) : lowerChar (lowerChar c) = lowerChar c.
Proof. each_char c. Qed.

Lemma toLowerCase_idem (s : string) : toLowerCase (toLowerCase s) = toLowerCase s.
Proof.
  induction s as [|c r IH]; simpl; [reflexivity|].
  now rewrite lowerChar_idem, IH.
Qed.

Lemma toLowerCase_empty (s : string) :
  toLowerCase s = "" <-> s = "".
Proof. destruct s; simpl; split; intro H; try reflexivity; discriminate H. Qed.

Lemma trimStart_toLowerCase (s : string) :
  trimStart (toLowerCase s) = toLowerCase (trimStart s).
Proof.
  induction s as [|c r IH]; simpl; [reflexivity|].
  rewrite isWhiteSpace_lowerChar.
  destruct (isWhiteSpace c); [exact IH | reflexivity].
Qed.

Lemma trimEnd_toLowerCase (s : string) :
  trimEnd (toLowerCase s) = toLowerCase (trimEnd s).
Proof.
  induction s as [|c r IH]; simpl; [reflexivity|].
  rewrite IH, isWhiteSpace_lowerChar.
  destruct (trimEnd r) as [|d t]; simpl.
  - destruct (isWhiteSpace c); reflexivity.
  - reflexivity.
Qed.

Lemma trim_toLowerCase (s : string) :
  trim (toLowerCase s) = toLowerCase (trim s).
Proof.
  unfold trim. now rewrite trimStart_toLowerCase, trimEnd_toLowerCase.
Qed.

Lemma trimEnd_idem (s : string) : trimEnd (trimEnd s) = trimEnd s.
Proof.
  induction s as [|c r IH]; simpl; [reflexivity|].
  destruct (trimEnd r) as [|d t] eqn:E.
  - destruct (isWhiteSpace c) eqn:W; simpl; [reflexivity|].
    now rewrite W.
  - simpl. simpl in IH. now rewrite IH.
Qed.

Lemma trimStart_headKept (s : string) : headKept (trimStart s).
Proof.
  induction s as [|c r IH]; simpl; [exact I|].
  destruct (isWhiteSpace c) eqn:W; [exact IH | exact W].
Qed.

Lemma trimStart_fixed (s : string) : headKept s -> trimStart s = s.
Proof.
  destruct s as [|c r]; simpl; intro H; [reflexivity|]. now rewrite H.
Qed.

Lemma trimEnd_headKept (s : string) : headKept s -> headKept (trimEnd s).
Proof.
  destruct s as [|c r]; simpl; intro H; [exact I|].
  destruct (trimEnd r); [rewrite H|]; exact H.
Qed.

Lemma trim_idem (s : string) : trim (trim s) = trim s.
Proof.
  unfold trim.
  rewrite (trimStart_fixed (trimEnd (trimStart s))).
  - apply trimEnd_idem.
  - apply trimEnd_headKept, trimStart_headKept.
Qed.

Lemma includes_In (l : list string) (x : string) :
  includes l x = true <-> In x l.
Proof.
  induction l as [|y r IH]; simpl.
  - split; [discriminate | tauto].
  - rewrite orb_true_iff, IH, String.eqb_eq. tauto.
Qed.

Lemma includes_not_In (l : list string) (x : string) :
  includes l x = false <-> ~ In x l.
Proof.
  rewrite <- includes_In. destruct (includes l x); split; congruence.
Qed.

(** *** [test] decides the language of a pattern *)

Lemma append_empty_r (s : string) : (s ++ "")%string = s.
Proof. induction s as [|c r IH]; simpl; [reflexivity | now rewrite IH]. Qed.

Lemma append_assoc (a b c : string) :
  ((a ++ b) ++ c)%string = (a ++ (b ++ c))%string.
Proof. induction a as [|x r IH]; simpl; [reflexivity | now rewrite IH]. Qed.

Lemma append_is_empty (a b : string) :
  (a ++ b)%string = "" -> a = "" /\ b = "".
Proof. destruct a; simpl; [tauto | discriminate]. Qed.

Lemma lang_seq_inv (r1 r2 : regex) (w : string) :
  lang (Seq r1 r2) w ->
  exists u v, w = (u ++ v)%string /\ lang r1 u /\ lang r2 v.
Proof. intro H. inversion H; subst. eauto. Qed.

Lemma lang_alt_inv (r1 r2 : regex) (w : string) :
  lang (Alt r1 r2) w -> lang r1 w \/ lang r2 w.
Proof. intro H. inversion H; subst; tauto. Qed.

Lemma lang_class_inv (p : ascii -> bool) (w : string) :
  lang (Class p) w -> exists c, w = String c "" /\ p c = true.
Proof. intro H. inversion H; subst. eauto. Qed.

Lemma lang_star_cons_inv (r : regex) (w : string) :
  lang (Star r) w ->
  forall c s, w = String c s ->
  exists u v, s = (u ++ v)%string /\ lang r (String c u) /\ lang (Star r) v.
Proof.
  intro H. remember (Star r) as sr eqn:E.
  induction H as [| | | | | r0 | r0 u v Hu _ Hv IHv]; try discriminate E.
  - intros c s Hw. discriminate Hw.
  - injection E as ->. intros c s Hw.
    destruct u as [|d u'].
    + simpl in Hw. exact (IHv eq_refl c s Hw).
    + simpl in Hw. injection Hw as -> <-.
      exists u', v. repeat split; assumption.
Qed.

Lemma nullable_lang (r : regex) : nullable r = true <-> lang r "".
Proof.
  induction r as [| |p|r1 IH1 r2 IH2|r1 IH1 r2 IH2|r IH]; simpl.
  - split; [discriminate | intro H; inversion H].
  - split; [constructor | reflexivity].
  - split; [discriminate | intro H; inversion H].
  - rewrite andb_true_iff, IH1, IH2. split.
    + intros [H1 H2]. exact (L_seq _ _ "" "" H1 H2).
    + intro H. apply lang_seq_inv in H. destruct H as (u & v & E & Hu & Hv).
      symmetry in E. apply append_is_empty in E. destruct E; subst. tauto.
  - rewrite orb_true_iff, IH1, IH2. split.
    + intros [H|H]; [apply L_alt_l | apply L_alt_r]; exact H.
    + apply lang_alt_inv.
  - split; [constructor | reflexivity].
Qed.

Lemma deriv_lang (r : regex) :
  forall c s, lang (deriv c r) s <-> lang r (String c s).
Proof.
  induction r as [| |p|r1 IH1 r2 IH2|r1 IH1 r2 IH2|r IH]; intros c s; simpl.
  - split; intro H; inversion H.
  - split; intro H; inversion H.
  - destruct (p c) eqn:P; split; intro H.
    + inversion H; subst. now constructor.
    + apply lang_class_inv in H. destruct H as (d & E & _).
      injection E as _ ->. constructor.
    + inversion H.
    + apply lang_class_inv in H. destruct H as (d & E & Hd).
      injection E as -> _. congruence.
  - assert (Hfwd : forall w, lang (Seq (deriv c r1) r2) w ->
                     lang (Seq r1 r2) (String c w)).
    { intros w H. apply lang_seq_inv in H. destruct H as (u & v & -> & Hu & Hv).
      apply IH1 in Hu. exact (L_seq _ _ (String c u) v Hu Hv). }
    assert (Hbwd : lang (Seq r1 r2) (String c s) ->
                   lang (Seq (deriv c r1) r2) s
                   \/ (lang r1 "" /\ lang (deriv c r2) s)).
    { intro H. apply lang_seq_inv in H. destruct H as (u & v & E & Hu & Hv).
      destruct u as [|d u'].
      - simpl in E. subst v. right. split; [exact Hu | now apply IH2].
      - simpl in E. injection E as -> ->. left.
        constructor; [now apply IH1 | exact Hv]. }
    destruct (nullable r1) eqn:N; split; intro H.
    + apply lang_alt_inv in H. destruct H as [H1|H2].
      * now apply Hfwd.
      * apply IH2 in H2. apply nullable_lang in N.
        exact (L_seq _ _ "" (String c s) N H2).
    + destruct (Hbwd H) as [H1|[_ H2]].
      * now apply L_alt_l.
      * now apply L_alt_r.
    + now apply Hfwd.
    + destruct (Hbwd H) as [H1|[H1 _]].
      * exact H1.
      * apply nullable_lang in H1. congruence.
  - split; intro H.
    + apply lang_alt_inv in H.
      destruct H as [H|H]; [apply L_alt_l, IH1 | apply L_alt_r, IH2]; exact H.
    + apply lang_alt_inv in H.
      destruct H as [H|H]; [apply L_alt_l, IH1 | apply L_alt_r, IH2]; exact H.
  - split; intro H.
    + apply lang_seq_inv in H. destruct H as (u & v & -> & Hu & Hv).
      apply IH in Hu. exact (L_star_cons _ (String c u) v Hu Hv).
    + destruct (lang_star_cons_inv _ _ H c s eq_refl) as (u & v & -> & Hu & Hv).
      constructor; [now apply IH | exact Hv].
Qed.

Lemma test_lang (s : string) : forall r, test r s = true <-> lang r s.
Proof.
  induction s as [|c s IH]; intro r; simpl.
  - apply nullable_lang.
  - rewrite IH. apply deriv_lang.
Qed.

End JSFacts.

(** ** The participant input *)

Module EmailChipInputFacts.
Import JS JSFacts EmailChipInput.

Lemma deriv_caseBlind (r : regex) (c : ascii) :
  caseBlind r -> deriv (lowerChar c) r = deriv c r /\ caseBlind (deriv c r).
Proof.
  induction r as [| |p|r1 IH1 r2 IH2|r1 IH1 r2 IH2|r IH]; simpl; intro H.
  - tauto.
  - tauto.
  - rewrite H. destruct (p c); simpl; tauto.
  - destruct H as [H1 H2].
    destruct (IH1 H1) as [E1 B1], (IH2 H2) as [E2 B2].
    rewrite E1, E2. destruct (nullable r1); simpl; tauto.
  - destruct H as [H1 H2].
    destruct (IH1 H1) as [E1 B1], (IH2 H2) as [E2 B2].
    rewrite E1, E2. simpl; tauto.
  - destruct (IH H) as [E B]. rewrite E. simpl; tauto.
Qed.

Lemma test_toLowerCase (s : string) :
  forall r, caseBlind r -> test r (toLowerCase s) = test r s.
Proof.
  induction s as [|c s IH]; intros r H; simpl; [reflexivity|].
  destruct (deriv_caseBlind r c H) as [E B].
  rewrite E. now apply IH.
Qed.

Lemma notSpaceAt_lowerChar (c : ascii) : notSpaceAt (lowerChar c) = notSpaceAt c.
Proof. each_char c. Qed.

Lemma isChar_at_lowerChar (c : ascii) :
  isChar "@"%char (lowerChar c) = isChar "@"%char c.
Proof. each_char c. Qed.

Lemma isChar_dot_lowerChar (c : ascii) :
  isChar "."%char (lowerChar c) = isChar "."%char c.
Proof. each_char c. Qed.

Lemma emailRegex_caseBlind : caseBlind emailRegex.
Proof.
  simpl. repeat split;
    first [apply notSpaceAt_lowerChar | apply isChar_at_lowerChar
          | apply isChar_dot_lowerChar].
Qed.

(** The check [addEmail] makes on the lower-cased, trimmed token is the
    check [isValidEmail] makes on the token as typed. *)
Lemma isValidEmail_normalised (s : string) :
  isValidEmail (toLowerCase (trim s)) = isValidEmail s.
Proof.
  unfold isValidEmail.
  rewrite trim_toLowerCase, trim_idem.
  apply test_toLowerCase, emailRegex_caseBlind.
Qed.

Lemma normalised_case_variation (s s' : string) :
  toLowerCase s' = toLowerCase s ->
  toLowerCase (trim s') = toLowerCase (trim s).
Proof.
  intro H. rewrite <- !trim_toLowerCase. now rewrite H.
Qed.

(** *** The shape of the e-mail pattern *)

Lemma lang_star_class (p : ascii -> bool) (s : string) :
  lang (Star (Class p)) s <-> allChars p s = true.
Proof.
  induction s as [|c s IH]; simpl.
  - split; [reflexivity | constructor].
  - rewrite andb_true_iff, <- IH. split.
    + intro H.
      destruct (lang_star_cons_inv _ _ H c s eq_refl) as (u & v & -> & Hu & Hv).
      apply lang_class_inv in Hu. destruct Hu as (d & E & Hd).
      injection E as -> ->. simpl. tauto.
    + intros [Hc Hs].
      exact (L_star_cons _ (String c "") s (L_class p c Hc) Hs).
Qed.

Lemma lang_plus_class (p : ascii -> bool) (s : string) :
  lang (Plus (Class p)) s <-> s <> "" /\ allChars p s = true.
Proof.
  unfold Plus. split.
  - intro H. apply lang_seq_inv in H. destruct H as (u & v & -> & Hu & Hv).
    apply lang_class_inv in Hu. destruct Hu as (d & -> & Hd).
    apply lang_star_class in Hv. simpl. rewrite Hd, Hv.
    split; [discriminate | reflexivity].
  - intros [Hne H]. destruct s as [|c s]; [congruence|].
    simpl in H. apply andb_true_iff in H. destruct H as [Hc Hs].
    apply lang_star_class in Hs.
    exact (L_seq _ _ (String c "") s (L_class p c Hc) Hs).
Qed.

Lemma lang_char (d : ascii) (s : string) :
  lang (Class (isChar d)) s <-> s = String d "".
Proof.
  split.
  - intro H. apply lang_class_inv in H. destruct H as (c & -> & Hc).
    unfold isChar in Hc. apply Ascii.eqb_eq in Hc. now subst.
  - intros ->. constructor. unfold isChar. apply Ascii.eqb_refl.
Qed.

Lemma emailRegex_shape (s : string) :
  test emailRegex s = true <-> emailShape s.
Proof.
  rewrite test_lang. unfold emailRegex, emailShape, part. split.
  - intro H.
    apply lang_seq_inv in H. destruct H as (a & w1 & -> & Ha & H).
    apply lang_seq_inv in H. destruct H as (x & w2 & -> & Hx & H).
    apply lang_seq_inv in H. destruct H as (b & w3 & -> & Hb & H).
    apply lang_seq_inv in H. destruct H as (y & c & -> & Hy & Hc).
    apply lang_char in Hx, Hy. subst x y.
    apply lang_plus_class in Ha, Hb, Hc.
    exists a, b, c. tauto.
  - intros (a & b & c & -> & Ha & Hb & Hc).
    apply lang_plus_class in Ha, Hb, Hc.
    apply L_seq; [exact Ha|].
    apply (L_seq _ _ "@"); [now apply lang_char|].
    apply L_seq; [exact Hb|].
    apply (L_seq _ _ "."); [now apply lang_char | exact Hc].
Qed.

Lemma wellFormed_shape (e : string) : wellFormed e -> emailShape e.
Proof. intros (_ & _ & H). now apply emailRegex_shape. Qed.

(** *** [addEmail], case by case *)

Lemma addEmail_cases (st : Chips) (s t : string) :
  t = toLowerCase (trim s) ->
  (t = "" /\ addEmail st s = st)
  \/ (isValidEmail t = false /\ addEmail st s = setError invalidMsg st)
  \/ (isValidEmail t = true /\ In t (emails st)
      /\ addEmail st s = setError duplicateMsg st)
  \/ (t <> "" /\ isValidEmail t = true /\ ~ In t (emails st)
      /\ addEmail st s = {| emails := emails st ++ [t]; inputValue := ""; error := "" |}).
Proof.
  intro Et. unfold addEmail. rewrite <- Et.
  destruct (truthy t) eqn:T; simpl negb; cbv iota.
  - right. destruct (isValidEmail t) eqn:V; simpl negb; cbv iota.
    + right. destruct (includes (emails st) t) eqn:I.
      * left. apply includes_In in I. tauto.
      * right. apply includes_not_In in I.
        repeat split; try assumption. intros ->. discriminate T.
    + left. tauto.
  - left. destruct t; [tauto | discriminate T].
Qed.

Lemma normalised_wellFormed (s : string) :
  isValidEmail (toLowerCase (trim s)) = true ->
  wellFormed (toLowerCase (trim s)).
Proof.
  intro V. unfold wellFormed.
  assert (T : trim (toLowerCase (trim s)) = toLowerCase (trim s))
    by (now rewrite trim_toLowerCase, trim_idem).
  repeat split.
  - exact T.
  - apply toLowerCase_idem.
  - unfold isValidEmail in V. now rewrite T in V.
Qed.

Lemma addEmail_emails (st : Chips) (s : string) :
  emails (addEmail st s) = emails st
  \/ (isValidEmail (toLowerCase (trim s)) = true
      /\ ~ In (toLowerCase (trim s)) (emails st)
      /\ emails (addEmail st s) = emails st ++ [toLowerCase (trim s)]).
Proof.
  destruct (addEmail_cases st s _ eq_refl)
    as [[_ E]|[[_ E]|[(_ & _ & E)|(_ & V & N & E)]]];
    rewrite E; simpl; tauto.
Qed.

Lemma addEmail_NoDup (st : Chips) (s : string) :
  NoDup (emails st) -> NoDup (emails (addEmail st s)).
Proof.
  intro ND. destruct (addEmail_emails st s) as [E|(_ & N & E)]; rewrite E.
  - exact ND.
  - apply NoDup_app; [exact ND | repeat constructor; intros [] | ].
    intros x Hx [<-|[]]. contradiction.
Qed.

Lemma removeEmail_NoDup (st : Chips) (v : string) :
  NoDup (emails st) -> NoDup (emails (removeEmail st v)).
Proof. intro ND. simpl. now apply NoDup_filter. Qed.

Lemma count_occ_once (l : list string) (t : string) :
  NoDup l -> In t l -> count_occ string_dec l t = 1.
Proof.
  intros ND Hin.
  pose proof (proj1 (NoDup_count_occ string_dec l) ND t) as Hle.
  pose proof (proj1 (count_occ_In string_dec l t) Hin) as Hgt.
  lia.
Qed.

(** *** Adding the same address twice *)

(** C7, as stated, fails: the token [bob] is no e-mail address, so after
    adding it twice (the second time as [BOB]) the list holds no entry for
    it, and the second call reports an invalid address, not a duplicate. *)
Lemma C7_counterexample :
  let st0 := {| emails := []; inputValue := ""; error := "" |} in
  let st2 := addEmail (addEmail st0 "bob") "BOB" in
  toLowerCase "BOB" = toLowerCase "bob"
  /\ count_occ string_dec (emails st2) (toLowerCase (trim "bob")) = 0
  /\ error st2 = invalidMsg
  /\ error st2 <> duplicateMsg.
Proof.
  cbv zeta. repeat split; try reflexivity.
  vm_compute. discriminate.
Qed.

(** C7 (amended): for every duplicate-free participant list, every string
    [s] that is a well-formed e-mail address and every case variation [s']
    of [s], adding [s] and then [s'] leaves exactly one entry for [s] (its
    trimmed, lower-cased form); the second call reports the duplicate and
    leaves the list unchanged; and the first call keeps the entries already
    there in their order, appending the new one at the end if at all. *)
Theorem C7_add_twice_one_entry (st : Chips) (s s' : string) :
  NoDup (emails st) ->
  isValidEmail s = true ->
  toLowerCase s' = toLowerCase s ->
  let t := toLowerCase (trim s) in
  let st1 := addEmail st s in
  let st2 := addEmail st1 s' in
  count_occ string_dec (emails st2) t = 1
  /\ error st2 = duplicateMsg
  /\ emails st2 = emails st1
  /\ (emails st1 = emails st \/ emails st1 = emails st ++ [t]).
Proof.
  intros ND V Hcase t st1 st2.
  assert (Vt : isValidEmail t = true)
    by (unfold t; now rewrite isValidEmail_normalised).
  assert (Et : t = toLowerCase (trim s'))
    by (symmetry; now apply normalised_case_variation).
  assert (Hne : t <> "").
  { intros E. rewrite E in Vt. discriminate Vt. }
  assert (In1 : In t (emails st1)).
  { unfold st1.
    destruct (addEmail_cases st s t eq_refl)
      as [[E0 _]|[[E0 _]|[(_ & I & E)|(_ & _ & _ & E)]]].
    - contradiction.
    - congruence.
    - rewrite E. exact I.
    - rewrite E. simpl. apply in_or_app. right. now left. }
  assert (ND1 : NoDup (emails st1)) by (now apply addEmail_NoDup).
  assert (E2 : st2 = setError duplicateMsg st1).
  { unfold st2.
    destruct (addEmail_cases st1 s' t Et)
      as [[E0 _]|[[E0 _]|[(_ & _ & E)|(_ & _ & N & _)]]].
    - contradiction.
    - congruence.
    - exact E.
    - contradiction. }
  rewrite E2. simpl. repeat split.
  - now apply count_occ_once.
  - unfold st1. destruct (addEmail_emails st s) as [E|(_ & _ & E)]; tauto.
Qed.

Lemma C7_add_twice_one_entry_witness :
  let st := {| emails := ["ann@x.org"]; inputValue := "Bob@X.com"; error := "" |} in
  let st1 := addEmail st " Bob@X.com" in
  let st2 := addEmail st1 " BOB@x.COM" in
  count_occ string_dec (emails st2) "bob@x.com" = 1
  /\ error st2 = duplicateMsg
  /\ emails st2 = emails st1
  /\ (emails st1 = emails st \/ emails st1 = emails st ++ ["bob@x.com"]).
Proof.
  intros st.
  apply (C7_add_twice_one_entry st " Bob@X.com" " BOB@x.COM").
  - simpl. constructor; [intros [] | constructor].
  - reflexivity.
  - reflexivity.
Defined.

(** *** Removing an address *)

Lemma removeEmail_In (st : Chips) (v e : string) :
  In e (emails (removeEmail st v)) <-> In e (emails st) /\ e <> v.
Proof.
  simpl. rewrite filter_In, negb_true_iff, String.eqb_neq. tauto.
Qed.

Lemma filter_keeps_all {A : Type} (f : A -> bool) (l : list A) :
  (forall x, In x l -> f x = true) -> filter f l = l.
Proof.
  induction l as [|a l IH]; simpl; intro H; [reflexivity|].
  rewrite (H a) by now left.
  f_equal. apply IH. intros x Hx. apply H. now right.
Qed.

Lemma removeEmail_absent (st : Chips) (v : string) :
  ~ In v (emails st) -> removeEmail st v = st.
Proof.
  intro N. destruct st as [l i e]. unfold removeEmail. simpl in *.
  f_equal. apply filter_keeps_all.
  intros x Hx. apply negb_true_iff, String.eqb_neq. congruence.
Qed.

(** C8, as stated, fails: the list holds [bob@x.com], which matches
    [BOB@X.COM] case-insensitively, and [removeEmail] leaves it there. *)
Lemma C8_counterexample :
  let st := {| emails := ["bob@x.com"]; inputValue := ""; error := "" |} in
  In "bob@x.com" (emails st)
  /\ toLowerCase "bob@x.com" = toLowerCase "BOB@X.COM"
  /\ emails (removeEmail st "BOB@X.COM") = ["bob@x.com"].
Proof. cbv zeta. repeat split. simpl. now left. Qed.

(** C8 (amended): [removeEmail v] compares exactly, not case-insensitively.
    It removes the entries equal to [v] and keeps every other entry in its
    place; it changes nothing when no entry equals [v], in particular when
    no entry matches [v] case-insensitively; and on a list of lower-case
    entries with a lower-case [v] the entries it removes are the
    case-insensitive matches. *)
Theorem C8_removeEmail_exact (st : Chips) (v : string) :
  (forall e, In e (emails (removeEmail st v)) <-> In e (emails st) /\ e <> v)
  /\ emails (removeEmail st v) = remove string_dec v (emails st)
  /\ (~ In v (emails st) -> removeEmail st v = st)
  /\ ((forall e, In e (emails st) -> toLowerCase e <> toLowerCase v) ->
      removeEmail st v = st)
  /\ (Forall (fun e => toLowerCase e = e) (emails st) -> toLowerCase v = v ->
      forall e, In e (emails (removeEmail st v)) <->
                In e (emails st) /\ toLowerCase e <> toLowerCase v).
Proof.
  split; [intro e; apply removeEmail_In|].
  split.
  { simpl. induction (emails st) as [|a l IH]; simpl; [reflexivity|].
    destruct (string_dec v a) as [->|N].
    - rewrite String.eqb_refl. simpl. exact IH.
    - assert (E : String.eqb a v = false) by (apply String.eqb_neq; congruence).
      rewrite E. simpl. now rewrite IH. }
  split; [apply removeEmail_absent|].
  split.
  { intro H. apply removeEmail_absent. intro Hin.
    exact (H v Hin eq_refl). }
  intros Hl Hv e. rewrite removeEmail_In. rewrite Forall_forall in Hl.
  split; intros [Hin Hne]; split; try assumption.
  - rewrite (Hl e Hin), Hv. exact Hne.
  - intros ->. now apply Hne.
Qed.

Lemma C8_removeEmail_exact_witness :
  let st := {| emails := ["ann@x.org"; "bob@x.com"]; inputValue := ""; error := "" |} in
  removeEmail st "BOB@X.COM" = st
  /\ emails (removeEmail st "bob@x.com") = ["ann@x.org"].
Proof.
  intro st.
  destruct (C8_removeEmail_exact st "BOB@X.COM") as (_ & _ & Habsent & _).
  destruct (C8_removeEmail_exact st "bob@x.com") as (_ & Hrem & _).
  split.
  - apply Habsent. simpl. intuition discriminate.
  - rewrite Hrem. reflexivity.
Defined.

(** *** The form of the stored entries *)

Lemma removeEmail_wellFormed (st : Chips) (v : string) :
  Forall wellFormed (emails st) -> Forall wellFormed (emails (removeEmail st v)).
Proof.
  rewrite !Forall_forall. intros H e He.
  apply removeEmail_In in He. apply H. tauto.
Qed.

Lemma addEmail_wellFormed (st : Chips) (s : string) :
  Forall wellFormed (emails st) -> Forall wellFormed (emails (addEmail st s)).
Proof.
  intro H. destruct (addEmail_emails st s) as [E|(V & _ & E)]; rewrite E.
  - exact H.
  - apply Forall_app. split; [exact H|].
    constructor; [now apply normalised_wellFormed | constructor].
Qed.

(** C10: if every entry of the participant list is trimmed, lower-case and
    matches the e-mail pattern (so has the shape [a@b.c]), the same holds
    after [addEmail] and after [removeEmail]; and what [addEmail] stores is
    the trimmed, lower-cased form of the token, not the token as typed. *)
Theorem C10_entries_stay_wellFormed (st : Chips) (v : string) :
  Forall wellFormed (emails st) ->
  Forall wellFormed (emails (addEmail st v))
  /\ Forall wellFormed (emails (removeEmail st v))
  /\ Forall emailShape (emails (addEmail st v))
  /\ Forall emailShape (emails (removeEmail st v))
  /\ (emails (addEmail st v) = emails st
      \/ emails (addEmail st v) = emails st ++ [toLowerCase (trim v)]).
Proof.
  intro H.
  pose proof (addEmail_wellFormed st v H) as Ha.
  pose proof (removeEmail_wellFormed st v H) as Hr.
  repeat split; try assumption.
  - eapply Forall_impl; [apply wellFormed_shape | exact Ha].
  - eapply Forall_impl; [apply wellFormed_shape | exact Hr].
  - destruct (addEmail_emails st v) as [E|(_ & _ & E)]; tauto.
Qed.

Lemma C10_entries_stay_wellFormed_witness :
  let st := {| emails := ["ann@x.org"]; inputValue := ""; error := "" |} in
  Forall wellFormed (emails st)
  /\ emails (addEmail st " Bob@X.COM ") = ["ann@x.org"; "bob@x.com"]
  /\ Forall wellFormed (emails (addEmail st " Bob@X.COM "))
  /\ Forall wellFormed (emails (removeEmail st "ann@x.org")).
Proof.
  intro st.
  assert (H : Forall wellFormed (emails st)).
  { simpl. constructor; [|constructor]. repeat split; reflexivity. }
  destruct (C10_entries_stay_wellFormed st " Bob@X.COM " H) as (Ha & _).
  destruct (C10_entries_stay_wellFormed st "ann@x.org" H) as (_ & Hr & _).
  repeat split; try assumption. 
Defined.

End EmailChipInputFacts.

(** ** The capture controller *)

Module UseMediaRecorderFacts.
Import Platform UseMediaRecorder.

Lemma payload_app (a b : list Blob) : payload (a ++ b) = payload a ++ payload b.
Proof. unfold payload. now rewrite map_app, concat_app. Qed.

Lemma payload_length (l : list Blob) :
  length (payload l) = list_sum (map size l).
Proof.
  induction l as [|b l IH]; simpl; [reflexivity|].
  unfold payload in *. simpl. now rewrite length_app, IH.
Qed.

(** An empty chunk adds no byte, so dropping it changes nothing. *)
Lemma ondataavailable_payload (d : Blob) (h : Hook) :
  payload (chunksRef (ondataavailable d h)) = payload (chunksRef h) ++ bytes d.
Proof.
  unfold ondataavailable. destruct (0 <? size d)%nat eqn:E; simpl.
  - rewrite payload_app. unfold payload at 2. simpl. now rewrite app_nil_r.
  - apply Nat.ltb_ge in E. unfold size in E.
    destruct (bytes d); [now rewrite app_nil_r | simpl in E; lia].
Qed.

Lemma ondataavailable_kept (d : Blob) (h : Hook) :
  (0 < size d)%nat -> chunksRef (ondataavailable d h) = chunksRef h ++ [d].
Proof.
  intro H. unfold ondataavailable.
  apply Nat.ltb_lt in H. now rewrite H.
Qed.

Lemma sameSession_refl (h : Hook) : sameSession h h.
Proof. unfold sameSession. tauto. Qed.

Lemma ticks_sameSession (l : list positive) (h : Hook) :
  sameSession h (fold_left (fun h' _ => tick h') l h).
Proof.
  revert h. induction l as [|i l IH]; intro h; simpl; [apply sameSession_refl|].
  destruct (IH (tick h)) as (A & B & C).
  unfold sameSession. rewrite A, B.
  split; [reflexivity|]. split; [reflexivity|].
  intro L. apply C. exact L.
Qed.

Lemma armInterval_fields (h : Hook) :
  isRecording (armInterval h) = isRecording h
  /\ chunksRef (armInterval h) = chunksRef h
  /\ mediaRecorderRef (armInterval h) = mediaRecorderRef h
  /\ recordingTime (armInterval h) = recordingTime h.
Proof. unfold armInterval. simpl. tauto. Qed.

Lemma disarmInterval_fields (h : Hook) :
  isRecording (disarmInterval h) = isRecording h
  /\ chunksRef (disarmInterval h) = chunksRef h
  /\ mediaRecorderRef (disarmInterval h) = mediaRecorderRef h
  /\ recordingTime (disarmInterval h) = recordingTime h.
Proof. unfold disarmInterval. destruct (intervalRef h); simpl; tauto. Qed.

Lemma pause_active (r r' : MediaRecorder) :
  pause r = Some r' -> state r' <> inactive.
Proof.
  unfold pause. destruct (state r) eqn:E; intro H; inversion H; subst; simpl;
    congruence.
Qed.

Lemma resume_active (r r' : MediaRecorder) :
  resume r = Some r' -> state r' <> inactive.
Proof.
  unfold resume. destruct (state r) eqn:E; intro H; inversion H; subst; simpl;
    congruence.
Qed.

Lemma pauseRecording_sameSession (h : Hook) :
  sameSession h (fst (pauseRecording h)).
Proof.
  unfold pauseRecording.
  destruct (mediaRecorderRef h) as [r|] eqn:R; [|apply sameSession_refl].
  destruct (isRecording h) eqn:I; [|apply sameSession_refl].
  destruct (pause r) as [r'|] eqn:P; [|apply sameSession_refl].
  simpl. destruct (disarmInterval_fields (setMediaRecorderRef (Some r') h))
    as (A & B & C & _).
  unfold sameSession, live. rewrite A, B, C. simpl.
  split; [congruence|]. split; [reflexivity|]. intros _. split; [congruence|].
  exists r'. split; [reflexivity | now apply (pause_active r)].
Qed.

Lemma resumeRecording_sameSession (h : Hook) :
  sameSession h (fst (resumeRecording h)).
Proof.
  unfold resumeRecording.
  destruct (mediaRecorderRef h) as [r|] eqn:R; [|apply sameSession_refl].
  destruct (isRecording h) eqn:I; [|apply sameSession_refl].
  destruct (resume r) as [r'|] eqn:P; [|apply sameSession_refl].
  simpl. destruct (armInterval_fields (setMediaRecorderRef (Some r') h))
    as (A & B & C & _).
  unfold sameSession, live. rewrite A, B, C. simpl.
  split; [congruence|]. split; [reflexivity|]. intros _. split; [congruence|].
  exists r'. split; [reflexivity | now apply (resume_active r)].
Qed.

Lemma step_live (h : Hook) (e : Event) : live h -> live (step h e).
Proof.
  destruct e as [d|id| | |]; simpl.
  - unfold ondataavailable. destruct (0 <? size d)%nat; simpl; tauto.
  - unfold timerFires. destruct (existsb _ _); simpl; tauto.
  - apply (ticks_sameSession (active (timers h)) h).
  - apply pauseRecording_sameSession.
  - apply resumeRecording_sameSession.
Qed.

Lemma step_other_chunks (h : Hook) (e : Event) :
  delivered [e] = [] -> chunksRef (step h e) = chunksRef h.
Proof.
  destruct e as [d|id| | |]; intro H; try discriminate H; unfold step.
  - unfold timerFires. destruct (existsb _ _); reflexivity.
  - exact (proj1 (proj2 (ticks_sameSession (active (timers h)) h))).
  - exact (proj1 (proj2 (pauseRecording_sameSession h))).
  - exact (proj1 (proj2 (resumeRecording_sameSession h))).
Qed.

Lemma delivered_one (e : Event) :
  (exists d, e = DataAvailable d /\ delivered [e] = [d]) \/ delivered [e] = [].
Proof. destruct e; simpl; eauto. Qed.

Lemma step_payload (h : Hook) (e : Event) :
  payload (chunksRef (step h e)) = payload (chunksRef h) ++ payload (delivered [e]).
Proof.
  destruct (delivered_one e) as [(d & -> & E)|E]; rewrite E.
  - unfold step. rewrite ondataavailable_payload.
    unfold payload at 3. simpl. now rewrite app_nil_r.
  - rewrite (step_other_chunks h e E). unfold payload at 3. simpl.
    now rewrite app_nil_r.
Qed.

Lemma step_kept (h : Hook) (e : Event) :
  Forall (fun d => 0 < size d)%nat (delivered [e]) ->
  chunksRef (step h e) = chunksRef h ++ delivered [e].
Proof.
  destruct (delivered_one e) as [(d & -> & E)|E]; rewrite E; intro H.
  - unfold step. apply ondataavailable_kept. now inversion H.
  - rewrite (step_other_chunks h e E). now rewrite app_nil_r.
Qed.

Lemma delivered_cons (e : Event) (evs : list Event) :
  delivered (e :: evs) = delivered [e] ++ delivered evs.
Proof. unfold delivered. simpl. now rewrite app_nil_r. Qed.

Lemma run_live (evs : list Event) : forall h, live h -> live (run evs h).
Proof.
  induction evs as [|e evs IH]; intros h L; simpl; [exact L|].
  apply IH, step_live, L.
Qed.

Lemma run_payload (evs : list Event) : forall h,
  payload (chunksRef (run evs h)) = payload (chunksRef h) ++ payload (delivered evs).
Proof.
  induction evs as [|e evs IH]; intro h.
  - simpl. unfold payload at 3. simpl. now rewrite app_nil_r.
  - change (run (e :: evs) h) with (run evs (step h e)).
    rewrite IH, step_payload, (delivered_cons e evs), payload_app, app_assoc.
    reflexivity.
Qed.

Lemma run_kept (evs : list Event) : forall h,
  Forall (fun d => 0 < size d)%nat (delivered evs) ->
  chunksRef (run evs h) = chunksRef h ++ delivered evs.
Proof.
  induction evs as [|e evs IH]; intros h H.
  - simpl. now rewrite app_nil_r.
  - change (run (e :: evs) h) with (run evs (step h e)).
    rewrite (delivered_cons e evs) in H.
    apply Forall_app in H. destruct H as [H1 H2].
    rewrite IH, step_kept, (delivered_cons e evs), app_assoc by assumption.
    reflexivity.
Qed.

Lemma delivered_map (chunks : list Blob) :
  delivered (map DataAvailable chunks) = chunks.
Proof.
  induction chunks as [|c l IH]; [reflexivity|].
  rewrite map_cons, (delivered_cons (DataAvailable c)), IH. reflexivity.
Qed.

Lemma deliver_recorder (chunks : list Blob) : forall h,
  mediaRecorderRef (deliver chunks h) = mediaRecorderRef h.
Proof.
  unfold deliver.
  induction chunks as [|c l IH]; intro h; simpl; [reflexivity|].
  unfold run in IH. rewrite IH.
  unfold ondataavailable. destruct (0 <? size c)%nat; reflexivity.
Qed.

Lemma startRecording_live (h : Hook) :
  live (startRecording true h) /\ chunksRef (startRecording true h) = [].
Proof.
  unfold startRecording. simpl. unfold live. simpl. repeat split.
  eexists. split; [reflexivity | discriminate].
Qed.

Lemma stopRecording_live (h : Hook) :
  live h ->
  exists h' r',
    stopRecording h = (h', Pending)
    /\ chunksRef h' = chunksRef h
    /\ isRecording h' = false
    /\ intervalRef h' = None
    /\ mediaRecorderRef h' = Some r'
    /\ state r' = inactive /\ stopQueued r' = true /\ onstop r' = true.
Proof.
  intros (I & r & R & S). unfold stopRecording. rewrite R, I. simpl.
  set (h1 := setIsRecording false
               (setMediaRecorderRef (Some (stop (installOnstop r))) h)).
  exists (disarmInterval h1), (stop (installOnstop r)).
  destruct (disarmInterval_fields h1) as (A & B & C & _).
  rewrite A, B, C.
  assert (St : stop (installOnstop r)
               = {| state := inactive; tracksLive := tracksLive r;
                    stopQueued := true; onstop := true |}).
  { unfold stop. simpl. destruct (state r); [congruence | reflexivity ..]. }
  rewrite St. repeat split.
  - unfold disarmInterval.
    destruct (intervalRef h1) eqn:E; [reflexivity | exact E].
  - unfold h1. simpl. now rewrite St.
Qed.

(** *** From start to stop *)

(** C1: whatever happens between [startRecording] and [stopRecording]
    (chunks delivered, ticks, pauses, resumes), and whatever chunks the
    recorder still flushes before its [stop] event, the promise returned by
    [stopRecording] resolves with a blob whose bytes are the delivered
    chunks' bytes in arrival order, whose size is the sum of their sizes and
    whose type is [audio/webm]; when no delivered chunk is empty, the sealed
    chunks are exactly the delivered ones. *)
Theorem C1_blob_is_concatenation (h : Hook) (evs : list Event) (flush : list Blob) :
  let chunks := delivered evs ++ flush in
  exists h3 h5 blob,
    stopRecording (run evs (startRecording true h)) = (h3, Pending)
    /\ dispatchStop (deliver flush h3) = (h5, Some blob)
    /\ bytes blob = payload chunks
    /\ size blob = list_sum (map size chunks)
    /\ type blob = "audio/webm"
    /\ (Forall (fun d => 0 < size d)%nat chunks ->
        chunksRef (deliver flush h3) = chunks).
Proof.
  intro chunks.
  destruct (startRecording_live h) as [L0 C0].
  pose proof (run_live evs _ L0) as L2.
  destruct (stopRecording_live _ L2) as (h3 & r' & E1 & Ch & _ & _ & R & _ & Q & O).
  pose proof (deliver_recorder flush h3) as R4. rewrite R in R4.
  assert (P4 : payload (chunksRef (deliver flush h3)) = payload chunks).
  { unfold deliver. rewrite run_payload, delivered_map, Ch, run_payload, C0.
    unfold chunks. now rewrite payload_app. }
  exists h3.
  unfold dispatchStop. rewrite R4, Q, O. unfold onstopHandler. simpl.
  eexists. eexists. split; [exact E1|]. split; [reflexivity|].
  simpl. split; [exact P4|].
  split; [unfold size; simpl; rewrite P4; apply payload_length|].
  split; [reflexivity|].
  intro H. unfold chunks in H. apply Forall_app in H. destruct H as [H1 H2].
  unfold deliver. rewrite run_kept by (now rewrite delivered_map).
  rewrite delivered_map, Ch, run_kept, C0 by assumption.
  reflexivity.
Qed.

Lemma C1_blob_is_concatenation_witness :
  let chunk n := {| bytes := repeat Byte.x2a n; type := "" |} in
  let evs := [DataAvailable (chunk 1000); SecondElapses;
              DataAvailable (chunk 2000); DataAvailable (chunk 1500)] in
  Forall (fun d => 0 < size d)%nat (delivered evs ++ [])
  /\ exists h3 h5 blob,
       stopRecording (run evs (startRecording true initial)) = (h3, Pending)
       /\ dispatchStop h3 = (h5, Some blob)
       /\ size blob = 4500
       /\ type blob = "audio/webm".
Proof.
  intros chunk evs.
  assert (H : Forall (fun d => 0 < size d)%nat (delivered evs ++ [])).
  { unfold evs. cbn [delivered flat_map app].
    repeat (apply Forall_cons || apply Forall_nil);
      apply Nat.ltb_lt; vm_compute; reflexivity. }
  split; [exact H|].
  destruct (C1_blob_is_concatenation initial evs [])
    as (h3 & h5 & blob & E1 & E2 & _ & Hs & Ht & _).
  exists h3, h5, blob.
  split; [exact E1|]. split; [exact E2|]. split; [|exact Ht].
  rewrite Hs. vm_compute. reflexivity.
Defined.

(** C9: [stopRecording] on an idle session (no recorder, or [isRecording]
    false) resolves with [null] at once and leaves the hook's state as it
    was: [isRecording], [recordingTime], the chunks, [error], the refs and
    the timers. *)
Theorem C9_stop_while_idle (h : Hook) :
  mediaRecorderRef h = None \/ isRecording h = false ->
  stopRecording h = (h, ResolvedNull).
Proof.
  intros [H|H]; unfold stopRecording.
  - now rewrite H.
  - rewrite H. now destruct (mediaRecorderRef h).
Qed.

Lemma C9_stop_while_idle_witness :
  let stopped := fst (stopRecording (startRecording true initial)) in
  stopRecording initial = (initial, ResolvedNull)
  /\ stopRecording stopped = (stopped, ResolvedNull).
Proof.
  intro stopped. split.
  - apply (C9_stop_while_idle initial). left. reflexivity.
  - apply (C9_stop_while_idle stopped). right. reflexivity.
Defined.

(** *** Pause and resume *)

Lemma setMediaRecorderRef_same (h : Hook) (r : MediaRecorder) :
  mediaRecorderRef h = Some r -> setMediaRecorderRef (Some r) h = h.
Proof. destruct h. simpl. now intros ->. Qed.

Lemma status_Recording (h : Hook) :
  status h = Recording ->
  isRecording h = true
  /\ exists r, mediaRecorderRef h = Some r /\ state r = recording.
Proof.
  unfold status. destruct (mediaRecorderRef h) as [r|]; [|discriminate].
  destruct (isRecording h); [|discriminate].
  destruct (state r) eqn:S; try discriminate. eauto.
Qed.

Lemma status_Paused (h : Hook) :
  status h = Paused ->
  isRecording h = true
  /\ exists r, mediaRecorderRef h = Some r /\ state r = paused.
Proof.
  unfold status. destruct (mediaRecorderRef h) as [r|]; [|discriminate].
  destruct (isRecording h); [|discriminate].
  destruct (state r) eqn:S; try discriminate. eauto.
Qed.

(** [pauseRecording] changes nothing outside the recording state. *)
Lemma pauseRecording_outside_recording (h : Hook) :
  tidy h -> status h <> Recording -> fst (pauseRecording h) = h.
Proof.
  unfold tidy, status, pauseRecording.
  destruct (mediaRecorderRef h) as [r|] eqn:R; [|reflexivity].
  destruct (isRecording h); [|reflexivity].
  unfold pause. destruct (state r) eqn:S; intros T N.
  - reflexivity.
  - congruence.
  - simpl. rewrite (setMediaRecorderRef_same h r R).
    unfold disarmInterval. destruct T as [-> _]. reflexivity.
Qed.

(** [resumeRecording] changes nothing on an idle session. *)
Lemma resumeRecording_idle (h : Hook) :
  status h = Idle -> fst (resumeRecording h) = h.
Proof.
  unfold status, resumeRecording.
  destruct (mediaRecorderRef h) as [r|] eqn:R; [|reflexivity].
  destruct (isRecording h); [|reflexivity].
  unfold resume. destruct (state r); intro H; try discriminate H. reflexivity.
Qed.

(** In the recording state [pauseRecording] pauses the recorder and clears
    the interval, so no tick is counted, and it keeps the tracks live. *)
Lemma pauseRecording_recording (h : Hook) :
  tidy h -> status h = Recording ->
  let h' := fst (pauseRecording h) in
  status h' = Paused /\ tidy h'
  /\ active (timers h') = []
  /\ recordingTime (secondElapses h') = recordingTime h
  /\ chunksRef h' = chunksRef h
  /\ exists r r', mediaRecorderRef h = Some r /\ mediaRecorderRef h' = Some r'
                  /\ tracksLive r' = tracksLive r.
Proof.
  intros T S. pose proof S as S'. unfold tidy in T. rewrite S in T.
  destruct T as (id & I & A).
  apply status_Recording in S'. destruct S' as (B & r & R & St).
  destruct h as [isR t e m c i tm]. simpl in *. subst.
  unfold pauseRecording, pause, status, tidy, secondElapses. simpl.
  rewrite St. simpl. unfold disarmInterval, clearInterval, status. simpl.
  rewrite A. simpl. rewrite Pos.eqb_refl. simpl.
  repeat split. eauto.
Qed.

(** In the paused state [resumeRecording] resumes the recorder and starts
    exactly one interval. *)
Lemma resumeRecording_paused (h : Hook) :
  tidy h -> status h = Paused ->
  let h' := fst (resumeRecording h) in
  status h' = Recording /\ tidy h'
  /\ active (timers h') = [next (timers h)]
  /\ recordingTime (secondElapses h') = (recordingTime h + 1)%Z
  /\ chunksRef h' = chunksRef h.
Proof.
  intros T S. pose proof S as S'. unfold tidy in T. rewrite S in T.
  destruct T as (I & A).
  apply status_Paused in S'. destruct S' as (B & r & R & St).
  destruct h as [isR t e m c i tm]. simpl in *. subst.
  unfold resumeRecording, resume, status, tidy, secondElapses. simpl.
  rewrite St. simpl. unfold armInterval, setInterval, status. simpl.
  rewrite A. simpl.
  repeat split. eauto.
Qed.

(** [pauseRecording] followed at once by [resumeRecording] gives back the
    recording session with its elapsed time and chunks, one interval active
    again: from there time is counted as in the run without the pause. *)
Lemma pause_then_resume (h : Hook) :
  tidy h -> status h = Recording ->
  let h' := fst (resumeRecording (fst (pauseRecording h))) in
  status h' = Recording /\ tidy h'
  /\ recordingTime h' = recordingTime h
  /\ chunksRef h' = chunksRef h
  /\ mediaRecorderRef h' = mediaRecorderRef h
  /\ recordingTime (secondElapses h') = recordingTime (secondElapses h).
Proof.
  intros T S. pose proof S as S'. unfold tidy in T. rewrite S in T.
  destruct T as (id & I & A).
  apply status_Recording in S'. destruct S' as (B & r & R & St).
  destruct h as [isR t e m c i tm]. destruct r as [s tl q o].
  simpl in *. subst.
  unfold pauseRecording, pause, resumeRecording, resume, status, tidy,
    secondElapses. simpl.
  unfold disarmInterval, clearInterval. simpl.
  rewrite A. simpl. rewrite Pos.eqb_refl. simpl.
  repeat split. eauto.
Qed.

(** In the recording state [resumeRecording] is not a no-op: a second
    interval runs beside the first, and a second is counted twice. *)
Lemma resumeRecording_recording (h : Hook) :
  tidy h -> status h = Recording ->
  let h' := fst (resumeRecording h) in
  status h' = Recording
  /\ length (active (timers h')) = 2
  /\ recordingTime (secondElapses h') = (recordingTime h + 1 + 1)%Z.
Proof.
  intros T S. pose proof S as S'. unfold tidy in T. rewrite S in T.
  destruct T as (id & I & A).
  apply status_Recording in S'. destruct S' as (B & r & R & St).
  destruct h as [isR t e m c i tm]. simpl in *. subst.
  unfold resumeRecording, resume, status, secondElapses. simpl.
  rewrite St. simpl. unfold armInterval, setInterval, status. simpl.
  rewrite A, St. simpl. repeat split.
Qed.

(** C6, where the code departs from it: [resumeRecording] on a session that
    is recording, not paused, is not a no-op.  It starts a second interval
    and forgets the handle of the first: each second is then counted twice,
    and [stopRecording] clears only the second interval, so the first keeps
    counting after the session has stopped. *)
Theorem C6_resume_while_recording_leaks_interval :
  let h1 := startRecording true initial in
  let h2 := fst (resumeRecording h1) in
  let h3 := fst (stopRecording h2) in
  status h1 = Recording /\ tidy h1
  /\ h2 <> h1
  /\ active (timers h1) = [1%positive]
  /\ active (timers h2) = [1%positive; 2%positive]
  /\ recordingTime (secondElapses h1) = 1%Z
  /\ recordingTime (secondElapses h2) = 2%Z
  /\ isRecording h3 = false
  /\ active (timers h3) = [1%positive]
  /\ recordingTime (secondElapses h3) = (recordingTime h3 + 1)%Z.
Proof.
  cbv zeta. repeat split; try reflexivity.
  - unfold tidy. simpl. exists 1%positive. split; reflexivity.
  - intro H. discriminate H.
Qed.

End UseMediaRecorderFacts.

(** ** The upload transport *)

Module ApiServiceFacts.
Import Platform World ApiService.

Lemma processMeeting_requests (production : bool) (token : option string)
    (meetingData : CreateMeetingRequest) (net : FetchOutcome) :
  requestsOf (fst (processMeeting production token meetingData net))
  = [ {| url := (BASE_URL production ++ PROCESS_MEETING)%string;
         method := "POST";
         headers := [("Authorization", bearer token)];
         body := formDataOf meetingData |} ].
Proof.
  unfold processMeeting. destruct net as [msg|response]; [reflexivity|].
  destruct (ok response); simpl.
  - destruct (json response); reflexivity.
  - unfold handleApiError. destruct (json response); reflexivity.
Qed.

Lemma processMeeting_calls (production : bool) (token : option string)
    (meetingData : CreateMeetingRequest) (net : FetchOutcome) :
  length (networkCalls (fst (processMeeting production token meetingData net))) = 1.
Proof.
  unfold processMeeting. destruct net as [msg|response]; [reflexivity|].
  destruct (ok response); simpl.
  - destruct (json response); reflexivity.
  - unfold handleApiError. destruct (json response); reflexivity.
Qed.

(** C2, as stated, fails: the request [processMeeting] sends has the four
    fields [recording], [title], [date] and [participants], and no field
    [duration]. *)
Lemma C2_counterexample :
  let meetingData :=
    {| title := "Standup"; date := "2024-01-15T10:00:00.000Z";
       participants := ["a@x.com"];
       recordingBlob := {| bytes := [Byte.x1a; Byte.x45]; type := "audio/webm" |} |} in
  let sent :=
    requestsOf (fst (processMeeting false (Some "t0k")
                       meetingData
                       (Responded {| status := 200;
                                     json := Parsed {| message := None; error := None;
                                                       data := Some "m1" |} |}))) in
  map (fun r => fieldNames (body r)) sent
    = [["recording"; "title"; "date"; "participants"]]
  /\ ~ In "duration" (concat (map (fun r => fieldNames (body r)) sent)).
Proof.
  cbv zeta. split; [reflexivity|].
  simpl. intuition discriminate.
Qed.

(** C2 (amended): whatever the network does, [processMeeting] sends exactly
    one request, a POST to the process-meeting endpoint whose multipart
    body has, in this order, the fields [recording] (the blob), [title],
    [date] (the date string of the request, which [handleSubmit] makes
    with [toISOString]) and [participants] (the JSON text of the array of
    participant strings).  It has no [duration] field. *)
Theorem C2_processMeeting_request (production : bool) (token : option string)
    (meetingData : CreateMeetingRequest) (net : FetchOutcome) :
  exists request,
    requestsOf (fst (processMeeting production token meetingData net)) = [request]
    /\ length (networkCalls (fst (processMeeting production token meetingData net))) = 1
    /\ method request = "POST"
    /\ url request = (BASE_URL production ++ "/meetings/process")%string
    /\ body request
       = [ ("recording", FileField (recordingBlob meetingData));
           ("title", TextField (title meetingData));
           ("date", TextField (date meetingData));
           ("participants", TextField (stringify (participants meetingData))) ]
    /\ ~ In "duration" (fieldNames (body request)).
Proof.
  eexists. split; [apply processMeeting_requests|].
  split; [apply processMeeting_calls|].
  simpl. repeat split. intuition discriminate.
Qed.

(** The JSON text of a participant list. *)
Example stringify_two :
  stringify ["a@x.com"; "b@y.org"]
  = ("[" ++ dquote ++ "a@x.com" ++ dquote ++ ","
         ++ dquote ++ "b@y.org" ++ dquote ++ "]")%string.
Proof. reflexivity. Qed.

End ApiServiceFacts.

(** ** The submission coordinator *)

Module SubmissionModalFacts.
Import Platform World SubmissionModal.

Section Handlers.

Variable toISOString : Date -> string.
Variable production : bool.
Variable token : option string.
Variable now : Date.
Variable typeMismatch : string -> bool.

Lemma networkCalls_app (a b : list Effect) :
  networkCalls (a ++ b) = networkCalls a ++ networkCalls b.
Proof. unfold networkCalls. apply filter_app. Qed.

Lemma toastsOf_app (a b : list Effect) :
  toastsOf (a ++ b) = toastsOf a ++ toastsOf b.
Proof. unfold toastsOf. apply flat_map_app. Qed.

(** A failing transport: what [processMeeting] throws and leaves behind. *)
Lemma processMeeting_fails (meetingData : ApiService.CreateMeetingRequest)
    (net : FetchOutcome) :
  transportFails net ->
  exists effects name,
    ApiService.processMeeting production token meetingData net
    = (effects, inl (ErrorObject name (reasonOf net)))
    /\ length (networkCalls effects) = 1
    /\ toastsOf effects = [].
Proof.
  unfold ApiService.processMeeting, transportFails, reasonOf.
  destruct net as [msg|response]; intro F.
  - eexists. eexists. repeat split.
  - rewrite F. simpl. unfold ApiService.handleApiError.
    destruct (json response); eexists; eexists; repeat split.
Qed.

Lemma handleSubmit_valid (props : Props) (st : Modal) (net : FetchOutcome) :
  validDraft props st ->
  exists blob,
    recordingBlob props = Some blob
    /\ handleSubmit toISOString production token now props st net
       = let submitting := setIsSubmitting true st in
         let meetingData :=
           {| ApiService.title := meetingTitle st;
              ApiService.date := toISOString (meetingDate st);
              ApiService.participants := emails st;
              ApiService.recordingBlob := blob |} in
         match ApiService.processMeeting production token meetingData net with
         | (effects, inr _) =>
             {| inFlight := Some submitting;
                final := setIsSubmitting false (resetForm now submitting);
                trace := effects ++ [ShowToast (successToast (meetingTitle st));
                                     CloseModal; Navigate "/"] |}
         | (effects, inl err) =>
             {| inFlight := Some submitting;
                final := setIsSubmitting false submitting;
                trace := effects ++ [ConsoleError "Meeting submission error:";
                                     ShowToast (failedToast err)] |}
         end.
Proof.
  intros (B & E & T). unfold handleSubmit.
  destruct (recordingBlob props) as [blob|]; [|congruence].
  exists blob. split; [reflexivity|].
  destruct (emails st) as [|e l]; [congruence|].
  destruct (meetingTitle st) as [|c t]; [congruence|].
  reflexivity.
Qed.

(** C3: when the blob is null, or the participant list is empty, or the
    title is empty, [handleSubmit] shows the missing-information toast and
    nothing else: no request is sent, the submitting state is never entered
    and the draft is what it was. *)
Theorem C3_invalid_draft_rejected (props : Props) (st : Modal) (net : FetchOutcome) :
  recordingBlob props = None \/ emails st = [] \/ meetingTitle st = "" ->
  let r := handleSubmit toISOString production token now props st net in
  toastsOf (trace r) = [missingToast]
  /\ destructive missingToast = true
  /\ networkCalls (trace r) = []
  /\ inFlight r = None
  /\ final r = st.
Proof.
  intro H.
  assert (E : handleSubmit toISOString production token now props st net = rejected st).
  { unfold handleSubmit.
    destruct (recordingBlob props) as [blob|]; [|reflexivity].
    destruct H as [H|[H|H]]; [discriminate H | rewrite H .. ].
    - reflexivity.
    - simpl. now rewrite orb_true_r. }
  cbv zeta. rewrite E. repeat split.
Qed.

(** C4 (amended): when a valid draft is submitted and the transport fails,
    [handleSubmit] ends with [isSubmitting] false and with the title, the
    participants and the date as they were; it has sent exactly one request
    (it does not retry); and it shows one destructive toast whose text is
    the message of the error thrown: the message of the [fetch] failure, or
    the [message] (else [error]) of the server's body, or a fixed text.
    Nothing in what is shown tells a network failure from a rejection by
    the server. *)
Theorem C4_transport_failure (props : Props) (st : Modal) (net : FetchOutcome) :
  validDraft props st ->
  transportFails net ->
  let r := handleSubmit toISOString production token now props st net in
  isSubmitting (final r) = false
  /\ emails (final r) = emails st
  /\ meetingTitle (final r) = meetingTitle st
  /\ meetingDate (final r) = meetingDate st
  /\ toastsOf (trace r)
     = [ {| toastTitle := "Submission Failed";
            description := reasonOf net;
            destructive := true |} ]
  /\ length (networkCalls (trace r)) = 1.
Proof.
  intros V F.
  destruct (handleSubmit_valid props st net V) as (blob & _ & E).
  cbv zeta in *. rewrite E.
  match goal with |- context [ApiService.processMeeting _ _ ?md _] =>
    destruct (processMeeting_fails md net F) as (effects & name & P & N & T)
  end.
  rewrite P. simpl.
  rewrite toastsOf_app, T, networkCalls_app, length_app, N.
  repeat split.
Qed.

(** The first attempt is in flight with [isSubmitting] set. *)
Lemma handleSubmit_inFlight (props : Props) (st : Modal) (net : FetchOutcome) :
  validDraft props st ->
  inFlight (handleSubmit toISOString production token now props st net) = Some (setIsSubmitting true st)
  /\ length (networkCalls (trace (handleSubmit toISOString production token now props st net))) = 1.
Proof.
  intro V.
  destruct (handleSubmit_valid props st net V) as (blob & _ & E).
  cbv zeta in E. rewrite E.
  match goal with |- context [ApiService.processMeeting _ _ ?md _] =>
    pose proof (ApiServiceFacts.processMeeting_calls production token md net) as N;
    destruct (ApiService.processMeeting production token md net) as [effects [err|res]]
  end; simpl in *; rewrite networkCalls_app, length_app, N; split; reflexivity.
Qed.

(** C5: at most one submission is in flight per draft.  In every state in
    which a submission is in progress [canSubmit] is false, so the submit
    button is disabled and a second submit is rejected outright, whatever
    stands in the form: no request, no change of state, nothing queued and
    nothing cancelled. *)
Theorem C5_button_disabled_while_submitting (pending : string) (props : Props)
    (st : Modal) (net : FetchOutcome) :
  isSubmitting st = true ->
  canSubmit st = false
  /\ submitButton toISOString production token now typeMismatch pending props st net
     = inert st
  /\ networkCalls
       (trace (submitButton toISOString production token now typeMismatch pending
                 props st net)) = [].
Proof.
  intro H.
  assert (C : canSubmit st = false).
  { unfold canSubmit. rewrite H. simpl. apply andb_false_r. }
  unfold submitButton. rewrite C. simpl. repeat split.
Qed.

End Handlers.

Lemma C3_invalid_draft_rejected_witness :
  let noOne := {| emails := []; meetingTitle := "Standup";
                  meetingDate := 1705312800000%Z; isSubmitting := false |} in
  let r := handleSubmit isoOf false None 0%Z standupProps noOne (Responded created) in
  toastsOf (trace r) = [missingToast]
  /\ destructive missingToast = true
  /\ networkCalls (trace r) = []
  /\ inFlight r = None
  /\ final r = noOne.
Proof.
  intro noOne.
  apply (C3_invalid_draft_rejected isoOf false None 0%Z standupProps noOne).
  right. left. reflexivity.
Defined.

(** C4, as stated, fails: a network failure ([fetch] rejecting with
    [Failed to fetch]) and a rejection by the server (a 502 whose body
    carries that message) leave the same toast and the same state; the
    reason shown does not tell them apart. *)
Lemma C4_counterexample :
  let r1 := handleSubmit isoOf false None 0%Z standupProps standup
              (NetworkFailure "Failed to fetch") in
  let r2 := handleSubmit isoOf false None 0%Z standupProps standup
              (Responded badGateway) in
  validDraft standupProps standup
  /\ transportFails (NetworkFailure "Failed to fetch")
  /\ transportFails (Responded badGateway)
  /\ toastsOf (trace r1) = toastsOf (trace r2)
  /\ final r1 = final r2.
Proof.
  cbv zeta. unfold validDraft. simpl.
  repeat split; try discriminate; reflexivity.
Qed.

Lemma C4_transport_failure_witness :
  let r := handleSubmit isoOf false None 0%Z standupProps standup
             (Responded unavailable) in
  isSubmitting (final r) = false
  /\ emails (final r) = ["a@x.com"]
  /\ meetingTitle (final r) = "Standup"
  /\ meetingDate (final r) = 1705312800000%Z
  /\ toastsOf (trace r)
     = [ {| toastTitle := "Submission Failed";
            description := "Service unavailable";
            destructive := true |} ]
  /\ length (networkCalls (trace r)) = 1.
Proof.
  apply (C4_transport_failure isoOf false None 0%Z standupProps standup
           (Responded unavailable)).
  - unfold validDraft. simpl. repeat split; discriminate.
  - reflexivity.
Defined.

(** The guard against a second submission is the button's: [handleSubmit]
    itself does not read [isSubmitting]. *)
Lemma handleSubmit_reads_no_isSubmitting :
  let submitting := setIsSubmitting true standup in
  let r := handleSubmit isoOf false None 0%Z standupProps submitting
             (Responded created) in
  isSubmitting submitting = true
  /\ length (networkCalls (trace r)) = 1
  /\ networkCalls (trace r) <> [].
Proof. cbv zeta. repeat split. simpl. discriminate. Qed.

Lemma C5_button_disabled_while_submitting_witness :
  let submitting := setIsSubmitting true standup in
  inFlight (handleSubmit isoOf false None 0%Z standupProps standup (Responded created))
    = Some submitting
  /\ canSubmit submitting = false
  /\ submitButton isoOf false None 0%Z noMismatch "" standupProps submitting
       (Responded created)
     = inert submitting
  /\ networkCalls
       (trace (submitButton isoOf false None 0%Z noMismatch "" standupProps
                 submitting (Responded created))) = [].
Proof.
  intro submitting. split; [reflexivity|].
  apply (C5_button_disabled_while_submitting isoOf false None 0%Z noMismatch ""
           standupProps submitting (Responded created)).
  reflexivity.
Defined.

End SubmissionModalFacts.

(** ** The handlers of the participant input *)

Module EmailChipKeysFacts.
Import JS JSFacts EmailChipInput EmailChipInputFacts EmailChipKeys.

(** X1: [isValidEmail] accepts exactly the strings that, once trimmed, have
    the shape [a@b.c] with [a], [b] and [c] non-empty and free of white
    space and of [@]. *)
Theorem X1_isValidEmail_shape (s : string) :
  isValidEmail s = true <-> emailShape (trim s).
Proof. unfold isValidEmail. apply emailRegex_shape. Qed.

Lemma X1_isValidEmail_shape_witness :
  isValidEmail " ann.lee@mail.example.org " = true
  /\ emailShape "ann.lee@mail.example.org".
Proof.
  split; [reflexivity|].
  exact (proj1 (X1_isValidEmail_shape " ann.lee@mail.example.org ") eq_refl).
Defined.

Lemma truthy_normalised (s : string) :
  truthy (toLowerCase (trim s)) = truthy (trim s).
Proof. destruct (trim s); reflexivity. Qed.

(** X2: leaving the field and pressing a delimiter key (Enter, comma,
    space) do the same thing in every state: both are [addEmail] on the
    text of the input. *)
Theorem X2_blur_is_delimiter (st : Chips) (key : string) :
  isDelimiter key = true ->
  handleKeyDown key st = handleBlur st
  /\ handleBlur st = addEmail st (inputValue st).
Proof.
  intro K.
  assert (B : handleBlur st = addEmail st (inputValue st)).
  { unfold handleBlur.
    destruct (truthy (trim (inputValue st))) eqn:T; [reflexivity|].
    unfold addEmail. now rewrite truthy_normalised, T. }
  split; [|exact B].
  rewrite B. unfold handleKeyDown. now rewrite K.
Qed.

Lemma X2_blur_is_delimiter_witness :
  let st := {| emails := ["ann@x.org"]; inputValue := " Bob@X.com"; error := "" |} in
  handleKeyDown "," st = handleBlur st
  /\ handleBlur st = addEmail st " Bob@X.com".
Proof.
  intro st. apply (X2_blur_is_delimiter st ","). reflexivity.
Defined.

Lemma lastEmail_snoc (l : list string) (e : string) : lastEmail (l ++ [e]) = Some e.
Proof.
  unfold lastEmail. rewrite length_app. simpl.
  replace (length l + 1 - 1) with (length l) by lia.
  rewrite nth_error_app2 by lia. now rewrite Nat.sub_diag.
Qed.

Lemma filter_drop_last (l : list string) (e : string) :
  ~ In e l ->
  filter (fun x => negb (String.eqb x e)) (l ++ [e]) = l.
Proof.
  intro N. rewrite filter_app. simpl. rewrite String.eqb_refl. simpl.
  rewrite app_nil_r. apply filter_keeps_all.
  intros x Hx. apply negb_true_iff, String.eqb_neq. congruence.
Qed.

(** X3: Backspace on an empty input removes the last chip and nothing else,
    when the list is duplicate-free; with text in the input, Backspace
    leaves the list alone. *)
Theorem X3_backspace_removes_last (st : Chips) :
  NoDup (emails st) ->
  (inputValue st = "" ->
   emails (handleKeyDown "Backspace" st) = removelast (emails st))
  /\ (inputValue st <> "" -> handleKeyDown "Backspace" st = st).
Proof.
  intro ND. unfold handleKeyDown. simpl isDelimiter. cbv iota. split.
  - intros ->. simpl.
    destruct (emails st) as [|a0 l0] eqn:E; [simpl; exact E|].
    destruct (@exists_last _ (a0 :: l0)) as (l & e & El); [discriminate|].
    rewrite El in *. rewrite length_app. simpl.
    replace (0 <? length l + 1)%nat with true
      by (symmetry; apply Nat.ltb_lt; lia).
    rewrite lastEmail_snoc. simpl. rewrite E, removelast_last.
    apply filter_drop_last.
    pose proof (NoDup_remove_2 l [] e ND) as N.
    now rewrite app_nil_r in N.
  - intro H. destruct (inputValue st); [congruence|]. reflexivity.
Qed.

Lemma X3_backspace_removes_last_witness :
  let st := {| emails := ["ann@x.org"; "bob@x.com"]; inputValue := ""; error := "" |} in
  emails (handleKeyDown "Backspace" st) = ["ann@x.org"].
Proof.
  intro st.
  destruct (X3_backspace_removes_last st) as [H _].
  - simpl. repeat constructor; simpl; intuition discriminate.
  - exact (H eq_refl).
Defined.

Lemma react_invariant (st : Chips) (i : Input) :
  NoDup (emails st) /\ Forall wellFormed (emails st) ->
  NoDup (emails (react st i)) /\ Forall wellFormed (emails (react st i)).
Proof.
  intros [ND WF].
  assert (A : forall s, NoDup (emails (addEmail st s))
                        /\ Forall wellFormed (emails (addEmail st s)))
    by (intro s; split; [now apply addEmail_NoDup | now apply addEmail_wellFormed]).
  assert (R : forall v, NoDup (emails (removeEmail st v))
                        /\ Forall wellFormed (emails (removeEmail st v)))
    by (intro v; split; [now apply removeEmail_NoDup | now apply removeEmail_wellFormed]).
  destruct i as [v|k| |n]; simpl.
  - tauto.
  - unfold handleKeyDown. destruct (isDelimiter k); [apply A|].
    destruct (_ && _); [|tauto].
    destruct (lastEmail (emails st)); [apply R | tauto].
  - unfold handleBlur. destruct (truthy _); [apply A | tauto].
  - unfold clickRemove. destruct (nth_error _ _); [apply R | tauto].
Qed.

(** X4: whatever the user types, presses, leaves or clicks, starting from
    the mounted component, the participant list never holds a duplicate
    and every entry is a trimmed, lower-case address matching the e-mail
    pattern. *)
Theorem X4_session_invariant (inputs : list Input) :
  NoDup (emails (session inputs mounted))
  /\ Forall wellFormed (emails (session inputs mounted)).
Proof.
  unfold session.
  assert (G : forall st, NoDup (emails st) /\ Forall wellFormed (emails st) ->
                         NoDup (emails (fold_left react inputs st))
                         /\ Forall wellFormed (emails (fold_left react inputs st))).
  { induction inputs as [|i l IH]; intros st H; simpl; [exact H|].
    apply IH, react_invariant, H. }
  apply G. simpl. split; constructor.
Qed.

(** X5: [addEmail] changes the list only by appending one entry, and it
    clears the input and the error exactly then; a token it does not
    accept leaves the list and the typed text as they were. *)
Theorem X5_addEmail_accepts_or_keeps (st : Chips) (s : string) :
  (emails (addEmail st s) = emails st /\ inputValue (addEmail st s) = inputValue st)
  \/ (emails (addEmail st s) = emails st ++ [toLowerCase (trim s)]
      /\ inputValue (addEmail st s) = "" /\ error (addEmail st s) = ""
      /\ isValidEmail s = true /\ ~ In (toLowerCase (trim s)) (emails st)).
Proof.
  destruct (addEmail_cases st s _ eq_refl)
    as [[_ E]|[[_ E]|[(_ & _ & E)|(_ & V & N & E)]]]; rewrite E; simpl.
  - left. tauto.
  - left. tauto.
  - left. tauto.
  - right. rewrite isValidEmail_normalised in V. tauto.
Qed.

(** X6: removing a stored entry and adding it again puts it back, at the
    end of the list. *)
Theorem X6_remove_then_add (st : Chips) (e : string) :
  wellFormed e ->
  emails (addEmail (removeEmail st e) e)
  = filter (fun x => negb (String.eqb x e)) (emails st) ++ [e].
Proof.
  intros (T & L & V).
  assert (Et : e = toLowerCase (trim e)) by (now rewrite T, L).
  destruct (addEmail_cases (removeEmail st e) e e Et)
    as [[E0 _]|[[E0 _]|[(_ & I & _)|(_ & _ & _ & E)]]].
  - subst e. discriminate V.
  - unfold isValidEmail in E0. rewrite T in E0. congruence.
  - apply removeEmail_In in I. tauto.
  - rewrite E. reflexivity.
Qed.

Lemma X6_remove_then_add_witness :
  let st := {| emails := ["bob@x.com"; "ann@x.org"]; inputValue := ""; error := "" |} in
  emails (addEmail (removeEmail st "bob@x.com") "bob@x.com")
  = ["ann@x.org"; "bob@x.com"].
Proof.
  intro st.
  rewrite (X6_remove_then_add st "bob@x.com"); [reflexivity|].
  repeat split; reflexivity.
Defined.

End EmailChipKeysFacts.

(** ** Sessions of the capture controller *)

Module SessionFacts.
Import Platform UseMediaRecorder UseMediaRecorderFacts Session.

(** A session that counts is a session with no leaked interval. *)
Lemma counting_phase (p : bool) (cur : positive) (t : Z) (h : Hook) :
  counting p cur t h -> phase p t h.
Proof.
  intros (S & R & N & I & A). unfold phase, tidy. rewrite S.
  destruct p; repeat split; try assumption. exists cur. now split.
Qed.

Lemma counting_start (h : Hook) :
  active (timers h) = [] ->
  counting false (next (timers h)) 0 (startRecording true h).
Proof.
  intro A. unfold counting, status, startRecording. simpl.
  unfold armInterval, setInterval. simpl. rewrite A. simpl.
  repeat split.
Qed.

Lemma counting_data (p : bool) (cur : positive) (t : Z) (h : Hook) (d : Blob) :
  counting p cur t h -> counting p cur t (ondataavailable d h).
Proof.
  unfold ondataavailable. destruct (0 <? size d)%nat; [|tauto].
  unfold counting, status. simpl. tauto.
Qed.

Lemma counting_tick (cur : positive) (t : Z) (h : Hook) :
  counting false cur t h -> counting false cur (t + 1) (tick h).
Proof.
  unfold counting, status, tick. simpl.
  intros (S & R & N & I & A). rewrite R. repeat split; assumption.
Qed.

Lemma counting_fires (p : bool) (cur : positive) (t : Z) (h : Hook) (id : positive) :
  counting p cur t h ->
  counting p cur (t + Z.of_nat (if negb p && Pos.eqb id cur then 1 else 0))
    (timerFires id h).
Proof.
  intro C. pose proof C as (S & R & N & I & A).
  unfold timerFires. rewrite A. destruct p; simpl.
  - now rewrite Z.add_0_r.
  - rewrite orb_false_r. destruct (Pos.eqb id cur).
    + now apply counting_tick.
    + now rewrite Z.add_0_r.
Qed.

Lemma counting_second (p : bool) (cur : positive) (t : Z) (h : Hook) :
  counting p cur t h ->
  counting p cur (t + Z.of_nat (if p then 0 else 1)) (secondElapses h).
Proof.
  intro C. pose proof C as (S & R & N & I & A).
  unfold secondElapses. rewrite A. destruct p; simpl.
  - now rewrite Z.add_0_r.
  - now apply counting_tick.
Qed.

Lemma counting_pause (p : bool) (cur : positive) (t : Z) (h : Hook) :
  counting p cur t h -> counting true cur t (fst (pauseRecording h)).
Proof.
  intros (S & R & N & I & A). destruct p.
  - pose proof S as S'.
    apply status_Paused in S'. destruct S' as (B & r & M & St).
    destruct h as [isR tm e m c i ts]. simpl in *. subst.
    unfold pauseRecording, pause, counting, status. simpl.
    rewrite St. simpl. unfold disarmInterval, status. simpl.
    rewrite St. repeat split; assumption.
  - pose proof S as S'.
    apply status_Recording in S'. destruct S' as (B & r & M & St).
    destruct h as [isR tm e m c i ts]. simpl in *. subst.
    unfold pauseRecording, pause, counting, status. simpl.
    rewrite St. simpl. unfold disarmInterval, clearInterval, status. simpl.
    rewrite A. simpl. rewrite Pos.eqb_refl. simpl.
    repeat split. exact N.
Qed.

Lemma counting_resume (cur : positive) (t : Z) (h : Hook) :
  counting true cur t h ->
  counting false (Pos.succ cur) t (fst (resumeRecording h)).
Proof.
  intros (S & R & N & I & A). pose proof S as S'.
  apply status_Paused in S'. destruct S' as (B & r & M & St).
  destruct h as [isR tm e m c i ts]. simpl in *. subst.
  unfold resumeRecording, resume, counting, status. simpl.
  rewrite St. simpl. unfold armInterval, setInterval, status. simpl.
  rewrite A, N. simpl. repeat split.
Qed.

Lemma run_counted (evs : list Event) :
  forall (p : bool) (cur : positive) (t : Z) (h : Hook),
  counting p cur t h ->
  orderly p evs = true ->
  exists p' cur',
    counting p' cur' (t + Z.of_nat (counted p cur evs))%Z (run evs h).
Proof.
  induction evs as [|e evs IH]; intros p cur t h C O.
  - exists p, cur. simpl. now rewrite Z.add_0_r.
  - change (run (e :: evs) h) with (run evs (step h e)).
    destruct e as [d|id| | |]; simpl in O; simpl counted; unfold step.
    + apply (IH p cur); [now apply counting_data | exact O].
    + destruct (IH p cur _ _ (counting_fires p cur t h id C) O) as (p' & cur' & C').
      exists p', cur'. rewrite Nat2Z.inj_add, Z.add_assoc. exact C'.
    + destruct (IH p cur _ _ (counting_second p cur t h C) O) as (p' & cur' & C').
      exists p', cur'. rewrite Nat2Z.inj_add, Z.add_assoc. exact C'.
    + apply (IH true cur); [now apply (counting_pause p) | exact O].
    + apply andb_true_iff in O. destruct O as [-> O].
      apply (IH false (Pos.succ cur)); [now apply counting_resume | exact O].
Qed.

(** X7: in a session started with no interval left over, in which
    [resumeRecording] is only called while paused, [recordingTime] is the
    number of times the current interval has fired while the session was
    not paused, the current interval being the one set by [startRecording]
    or by the latest [resumeRecording].  A chunk, a firing while paused and
    a firing of an interval that a pause has cleared do not move it.  It is
    a count of callbacks, not of seconds on a clock. *)
Theorem X7_recordingTime_counts_interval_firings (h : Hook) (evs : list Event) :
  active (timers h) = [] ->
  orderly false evs = true ->
  recordingTime (run evs (startRecording true h))
  = Z.of_nat (counted false (next (timers h)) evs).
Proof.
  intros A O.
  destruct (run_counted evs false _ 0 _ (counting_start h A) O)
    as (p' & cur' & _ & R & _).
  rewrite R. lia.
Qed.

Lemma X7_recordingTime_counts_interval_firings_witness :
  let chunk := {| bytes := [Byte.x2a]; type := "" |} in
  active (timers initial) = []
  /\ next (timers initial) = 1%positive
  /\ recordingTime
       (run [TimerFires 1; DataAvailable chunk; TimerFires 1; PauseRecording;
             TimerFires 1; SecondElapses; ResumeRecording; TimerFires 1;
             TimerFires 2]
            (startRecording true initial)) = 3%Z.
Proof.
  intro chunk. split; [reflexivity|]. split; [reflexivity|].
  rewrite (X7_recordingTime_counts_interval_firings initial); reflexivity.
Defined.

Lemma step_stored (h : Hook) (e : Event) :
  chunksRef (step h e) = chunksRef h ++ filter nonEmpty (delivered [e]).
Proof.
  destruct (delivered_one e) as [(d & -> & E)|E]; rewrite E.
  - unfold step, ondataavailable. simpl. unfold nonEmpty.
    destruct (0 <? size d)%nat; simpl; [reflexivity | now rewrite app_nil_r].
  - rewrite (step_other_chunks h e E). simpl. now rewrite app_nil_r.
Qed.

Lemma run_stored (evs : list Event) : forall h,
  chunksRef (run evs h) = chunksRef h ++ filter nonEmpty (delivered evs).
Proof.
  induction evs as [|e evs IH]; intro h.
  - simpl. now rewrite app_nil_r.
  - change (run (e :: evs) h) with (run evs (step h e)).
    rewrite IH, step_stored, (delivered_cons e evs), filter_app, app_assoc.
    reflexivity.
Qed.

(** X8: the chunks a session holds are the delivered chunks of non-zero
    size, in arrival order: an empty chunk is never stored, and chunks of
    an earlier session are gone. *)
Theorem X8_stored_chunks (h : Hook) (evs : list Event) :
  chunksRef (run evs (startRecording true h)) = filter nonEmpty (delivered evs)
  /\ Forall (fun d => 0 < size d)%nat (chunksRef (run evs (startRecording true h))).
Proof.
  assert (E : chunksRef (run evs (startRecording true h))
              = filter nonEmpty (delivered evs)).
  { rewrite run_stored. now destruct (startRecording_live h) as [_ ->]. }
  split; [exact E|].
  rewrite E. apply Forall_forall. intros d Hd.
  apply filter_In in Hd. destruct Hd as [_ Hd].
  unfold nonEmpty in Hd. now apply Nat.ltb_lt.
Qed.




End SessionFacts.

(** ** The recording controls and the modal they open *)

Module RecordingControlsFacts.
Import Platform World UseMediaRecorder UseMediaRecorderFacts RecordingControls.

Lemma ticks_fields (l : list positive) : forall h,
  error (fold_left (fun h' _ => tick h') l h) = error h.
Proof.
  induction l as [|i l IH]; intro h; simpl; [reflexivity|]. now rewrite IH.
Qed.

Lemma step_error (h : Hook) (e : Event) : error (step h e) = error h.
Proof.
  destruct e as [d|id| | |]; unfold step.
  - unfold ondataavailable. destruct (0 <? size d)%nat; reflexivity.
  - unfold timerFires. destruct (existsb _ _); reflexivity.
  - apply ticks_fields.
  - unfold pauseRecording. destruct (mediaRecorderRef h); [|reflexivity].
    destruct (isRecording h); [|reflexivity].
    destruct (pause m); [|reflexivity]. simpl.
    unfold disarmInterval. simpl. destruct (intervalRef h); reflexivity.
  - unfold resumeRecording. destruct (mediaRecorderRef h); [|reflexivity].
    destruct (isRecording h); [|reflexivity].
    destruct (resume m); reflexivity.
Qed.

Lemma run_error (evs : list Event) : forall h, error (run evs h) = error h.
Proof.
  induction evs as [|e evs IH]; intro h; simpl; [reflexivity|].
  unfold run in IH. now rewrite IH, step_error.
Qed.

Lemma deliver_time (chunks : list Blob) : forall h,
  recordingTime (deliver chunks h) = recordingTime h.
Proof.
  unfold deliver.
  induction chunks as [|c l IH]; intro h; simpl; [reflexivity|].
  unfold run in IH. rewrite IH.
  unfold ondataavailable. destruct (0 <? size c)%nat; reflexivity.
Qed.

(** Stopping a live session and letting the [stop] event fire. *)
Lemma stop_and_dispatch (h : Hook) (flush : list Blob) :
  live h ->
  exists h3 h5 blob,
    stopRecording h = (h3, Pending)
    /\ dispatchStop (deliver flush h3) = (h5, Some blob)
    /\ bytes blob = payload (chunksRef h) ++ payload flush
    /\ type blob = "audio/webm"
    /\ error h5 = error h
    /\ recordingTime h5 = recordingTime h.
Proof.
  intro L. pose proof L as (I & r & R & S).
  destruct (stopRecording_live h L) as (h3 & r' & E1 & Ch & _ & _ & R3 & _ & Q & O).
  pose proof (deliver_recorder flush h3) as R4. rewrite R3 in R4.
  assert (P4 : payload (chunksRef (deliver flush h3))
               = payload (chunksRef h) ++ payload flush).
  { unfold deliver. now rewrite run_payload, delivered_map, Ch. }
  assert (F3 : error h3 = error h /\ recordingTime h3 = recordingTime h).
  { unfold stopRecording in E1. rewrite R, I in E1. simpl in E1.
    injection E1 as <-.
    unfold disarmInterval. simpl. destruct (intervalRef h); simpl; tauto. }
  exists h3. unfold dispatchStop. rewrite R4, Q, O.
  unfold onstopHandler. simpl.
  eexists. eexists. split; [exact E1|]. split; [reflexivity|].
  simpl. split; [exact P4|]. split; [reflexivity|].
  unfold deliver. rewrite run_error. fold (deliver flush h3).
  rewrite deliver_time. exact F3.
Qed.

Lemma setHook_same (c : Controls) : setHook (hook c) c = c.
Proof. now destruct c. Qed.

(** X10: when the microphone is refused, [handleStartRecording] still
    announces [Recording Started] (the failure toast is never shown); the
    hook holds the error; and from then on the component renders the error
    alone, without button or modal, so that no click changes it any more. *)
Theorem X10_denied_start_sticks (c : Controls) (ks : list Click) :
  let c1 := fst (handleStartRecording false c) in
  snd (handleStartRecording false c) = [ShowToast startedToast]
  /\ error (hook c1) = Some startFailedMsg
  /\ isRecording (hook c1) = isRecording (hook c)
  /\ startButton c1 = false /\ stopButton c1 = false
  /\ modalProps c1 = None
  /\ clicks ks c1 = c1.
Proof.
  cbv zeta. unfold handleStartRecording, awaitStartRecording. cbn [fst snd].
  set (c1 := setHook (startRecording false (hook c)) c).
  assert (E : errorShown c1 = true) by reflexivity.
  assert (B1 : startButton c1 = false) by (unfold startButton; now rewrite E).
  assert (B2 : stopButton c1 = false) by (unfold stopButton; now rewrite E).
  assert (M : modalOpen c1 = false) by (unfold modalOpen; now rewrite E).
  assert (P : modalProps c1 = None) by (unfold modalProps; now rewrite E).
  repeat split; try assumption; try reflexivity.
  induction ks as [|k ks IH]; simpl; [reflexivity|].
  assert (K : click c1 k = c1)
    by (destruct k; simpl; rewrite ?B1, ?B2, ?M; reflexivity).
  now rewrite K.
Qed.

(** X11: [handleStopRecording] on an idle session does nothing: no toast,
    no modal, no change of state. *)
Theorem X11_stop_click_while_idle (c : Controls) (flush : list Blob) :
  mediaRecorderRef (hook c) = None \/ isRecording (hook c) = false ->
  handleStopRecording flush c = (c, []).
Proof.
  intro H. unfold handleStopRecording, stopRecording.
  destruct (mediaRecorderRef (hook c)) as [r|].
  - destruct H as [H|H]; [discriminate|]. rewrite H. simpl.
    now rewrite setHook_same.
  - now rewrite setHook_same.
Qed.

Lemma X11_stop_click_while_idle_witness :
  handleStopRecording [] fresh = (fresh, []).
Proof. apply (X11_stop_click_while_idle fresh []). left. reflexivity. Defined.

Section EndToEnd.

Variable toISOString : Date -> string.
Variable production : bool.
Variable token : option string.
Variable now : Date.

(** X12: from the click on Start to the request.  After any run of the
    hook's events and the click on Stop, the modal is open on a blob that is
    the delivered chunks in arrival order, tagged [audio/webm], with the
    elapsed time as its duration; and submitting a draft with a participant
    and a title sends that blob as the [recording] field, with the title,
    the ISO date and the JSON participant list - and nothing that depends
    on the duration. *)
Theorem X12_recording_reaches_backend (evs : list Event) (flush : list Blob)
    (st : SubmissionModal.Modal) (net : FetchOutcome) :
  SubmissionModal.emails st <> [] ->
  SubmissionModal.meetingTitle st <> "" ->
  let c1 := fst (handleStartRecording true fresh) in
  let c2 := setHook (run evs (hook c1)) c1 in
  let c3 := fst (handleStopRecording flush c2) in
  exists props blob,
    modalProps c3 = Some props
    /\ modalOpen c3 = true
    /\ snd (handleStopRecording flush c2) = [ShowToast stoppedToast]
    /\ SubmissionModal.recordingBlob props = Some blob
    /\ bytes blob = payload (delivered evs ++ flush)
    /\ type blob = "audio/webm"
    /\ SubmissionModal.recordingDuration props = recordingTime (hook c2)
    /\ map body
         (requestsOf
            (SubmissionModal.trace
               (SubmissionModal.handleSubmit toISOString production token now
                  props st net)))
       = [ [ ("recording", FileField blob);
             ("title", TextField (SubmissionModal.meetingTitle st));
             ("date", TextField (toISOString (SubmissionModal.meetingDate st)));
             ("participants",
              TextField (stringify (SubmissionModal.emails st))) ] ]
    /\ forall d,
         SubmissionModal.handleSubmit toISOString production token now
           {| SubmissionModal.recordingBlob := Some blob;
              SubmissionModal.recordingDuration := d |} st net
         = SubmissionModal.handleSubmit toISOString production token now
             props st net.
Proof.
  intros He Ht. cbv zeta.
  unfold handleStartRecording, awaitStartRecording. cbn [fst].
  change (hook fresh) with initial.
  set (h1 := startRecording true initial).
  destruct (startRecording_live initial) as [L1 C1]. fold h1 in L1, C1.
  pose proof (run_live evs h1 L1) as L2.
  destruct (stop_and_dispatch (run evs h1) flush L2)
    as (h3 & h5 & blob & E1 & E2 & Hb & Hty & Her & Htm).
  unfold handleStopRecording, setHook. cbn [hook].
  rewrite E1, E2. cbn [fst snd].
  assert (Err : error h5 = None) by (now rewrite Her, run_error).
  eexists. exists blob.
  unfold modalProps, modalOpen, errorShown. simpl. rewrite Err. simpl.
  split; [reflexivity|]. split; [reflexivity|]. split; [reflexivity|].
  split; [reflexivity|].
  split; [rewrite Hb, run_payload, C1, payload_app; reflexivity|].
  split; [exact Hty|]. split; [exact Htm|].
  split; [|intro d; reflexivity].
  unfold SubmissionModal.handleSubmit. simpl.
  destruct (SubmissionModal.emails st) as [|e l]; [congruence|].
  destruct (SubmissionModal.meetingTitle st) as [|ch t]; [congruence|].
  simpl.
  match goal with |- context [ApiService.processMeeting _ _ ?md _] =>
    pose proof (ApiServiceFacts.processMeeting_requests production token md net) as Rq;
    destruct (ApiService.processMeeting production token md net) as [fx [err|res]]
  end; simpl in *; unfold requestsOf in *; rewrite flat_map_app, map_app, Rq;
    reflexivity.
Qed.

End EndToEnd.

Lemma X12_recording_reaches_backend_witness :
  let chunk n := {| bytes := repeat Byte.x2a n; type := "" |} in
  let evs := [DataAvailable (chunk 3); SecondElapses; DataAvailable (chunk 2)] in
  exists props blob,
    modalProps
      (fst (handleStopRecording []
              (setHook (run evs (hook (fst (handleStartRecording true fresh))))
                       (fst (handleStartRecording true fresh)))))
    = Some props
    /\ SubmissionModal.recordingBlob props = Some blob
    /\ bytes blob = repeat Byte.x2a 5
    /\ SubmissionModal.recordingDuration props = 1%Z.
Proof.
  intros chunk evs.
  assert (He : SubmissionModal.emails SubmissionModal.standup <> [])
    by discriminate.
  assert (Ht : SubmissionModal.meetingTitle SubmissionModal.standup <> "")
    by discriminate.
  destruct (X12_recording_reaches_backend SubmissionModal.isoOf false None 0%Z
              evs [] SubmissionModal.standup (Responded SubmissionModal.created)
              He Ht)
    as (props & blob & M & _ & _ & B & Hb & _ & D & _).
  exists props, blob. repeat split; assumption.
Defined.

End RecordingControlsFacts.

(** ** More on the submission modal *)

Module SubmissionModalMore.
Import Platform World SubmissionModal SubmissionModalFacts.

Section Handlers.

Variable toISOString : Date -> string.
Variable production : bool.
Variable token : option string.
Variable now : Date.

(** X13: when the backend answers a valid draft with a success status and
    a body that is JSON and not [null] (an object or a bare value),
    [handleSubmit] sends one request, shows the success toast
    naming the title, closes the modal and navigates to the dashboard, in
    this order, and leaves an empty draft dated now, no longer submitting. *)
Theorem X13_accepted_submission (props : Props) (st : Modal) (r : Response) :
  validDraft props st ->
  ok r = true ->
  readable (json r) = true ->
  let run := handleSubmit toISOString production token now props st (Responded r) in
  final run = {| emails := []; meetingTitle := ""; meetingDate := now;
                 isSubmitting := false |}
  /\ inFlight run = Some (setIsSubmitting true st)
  /\ exists request,
       trace run = [ Fetch request;
                     ConsoleLog "Meeting processing initiated:";
                     ShowToast (successToast (meetingTitle st));
                     CloseModal;
                     Navigate "/" ].
Proof.
  intros V Hok Hj.
  destruct (handleSubmit_valid toISOString production token now props st
              (Responded r) V) as (blob & _ & E).
  cbv zeta in *. rewrite E.
  unfold ApiService.processMeeting. rewrite Hok. simpl.
  destruct (json r); try discriminate Hj; simpl;
    (repeat split; eexists; reflexivity).
Qed.

(** X26: a success status whose body is the JSON value [null] counts as a
    failure, although the backend took the upload: reading [data.meeting]
    throws, so the toast is [Submission Failed] with the engine's text for
    that [TypeError], nothing is logged by [processMeeting], the modal stays
    open, there is no navigation and the draft is kept. *)
Theorem X26_null_success_body (props : Props) (st : Modal)
    (r : Response) (engineText : string) :
  validDraft props st ->
  ok r = true ->
  json r = ParsedNull engineText ->
  let run := handleSubmit toISOString production token now props st (Responded r) in
  final run = setIsSubmitting false st
  /\ (exists request,
        trace run
        = [ Fetch request;
            ConsoleError "Meeting submission error:";
            ShowToast {| toastTitle := "Submission Failed";
                         description := engineText;
                         destructive := true |} ]).
Proof.
  intros V Hok Hj.
  destruct (handleSubmit_valid toISOString production token now props st
              (Responded r) V) as (blob & _ & E).
  cbv zeta in *. rewrite E.
  unfold ApiService.processMeeting. rewrite Hok, Hj. simpl.
  split; [reflexivity|]. eexists. reflexivity.
Qed.

(** X14: a success status whose body cannot be read as JSON counts as a
    failure, although the backend took the upload: the toast is
    [Submission Failed] with the parser's message, the modal stays open,
    there is no navigation and the draft is kept. *)
Theorem X14_unreadable_success_body (props : Props) (st : Modal)
    (r : Response) (msg : string) :
  validDraft props st ->
  ok r = true ->
  json r = ParseError msg ->
  let run := handleSubmit toISOString production token now props st (Responded r) in
  final run = setIsSubmitting false st
  /\ toastsOf (trace run)
     = [ {| toastTitle := "Submission Failed"; description := msg;
            destructive := true |} ]
  /\ length (networkCalls (trace run)) = 1
  /\ ~ In CloseModal (trace run)
  /\ ~ In (Navigate "/") (trace run).
Proof.
  intros V Hok Hj.
  destruct (handleSubmit_valid toISOString production token now props st
              (Responded r) V) as (blob & _ & E).
  cbv zeta in *. rewrite E.
  unfold ApiService.processMeeting. rewrite Hok, Hj. simpl.
  repeat split; intuition discriminate.
Qed.

Lemma trim_nonempty (s : string) : JS.truthy (JS.trim s) = true -> s <> "".
Proof. intros H ->. discriminate H. Qed.

Lemma truthy_iff (s : string) : JS.truthy s = true <-> s <> "".
Proof. destruct s; simpl; split; congruence. Qed.

Variable typeMismatch : string -> bool.

(** X15: a submit through the button, with the text [pending] standing in
    the e-mail input, reaches the network exactly when there is a
    recording, at least one participant, a title that is not blank, no
    submission in progress, and the browser finds no type mismatch in the
    pending text; it then sends one request. *)
Theorem X15_button_sends_iff (pending : string) (props : Props) (st : Modal)
    (net : FetchOutcome) :
  let calls :=
    networkCalls
      (trace (submitButton toISOString production token now typeMismatch pending
                props st net)) in
  (calls <> [] <->
   recordingBlob props <> None /\ emails st <> []
   /\ JS.trim (meetingTitle st) <> "" /\ isSubmitting st = false
   /\ typeMismatch pending = false)
  /\ (calls = [] \/ length calls = 1).
Proof.
  cbv zeta. unfold submitButton, canSubmit, checkValidity.
  destruct (emails st) as [|e l] eqn:He; simpl.
  { split; [|now left]. split; [congruence | tauto]. }
  destruct (JS.truthy (JS.trim (meetingTitle st))) eqn:Ht; simpl.
  2:{ split; [|now left]. split; [congruence|].
      intros (_ & _ & N & _). apply truthy_iff in N. congruence. }
  destruct (isSubmitting st) eqn:Hs; simpl.
  { split; [|now left]. split; [congruence | intuition congruence]. }
  destruct (typeMismatch pending) eqn:Hm; simpl.
  { split; [|now left]. split; [congruence | intuition congruence]. }
  assert (Hn : JS.truthy (meetingTitle st) = true).
  { apply truthy_iff. now apply trim_nonempty. }
  rewrite Hn. simpl.
  destruct (recordingBlob props) as [blob|] eqn:Hb.
  - assert (V : validDraft props st).
    { unfold validDraft. rewrite Hb, He. repeat split; try discriminate.
      now apply trim_nonempty. }
    destruct (handleSubmit_inFlight toISOString production token now props st net V)
      as [_ N].
    split; [|now right].
    split.
    + intros _. repeat split; try discriminate. now apply truthy_iff.
    + intros _ E. rewrite E in N. discriminate N.
  - unfold handleSubmit. rewrite Hb. simpl.
    split; [|now left]. split; [congruence | tauto].
Qed.

End Handlers.

Lemma X15_button_sends_iff_witness :
  networkCalls
    (trace (submitButton isoOf false None 0%Z wantsAtSign "b@x.com" standupProps
              standup (Responded created)))
  <> []
  /\ networkCalls
       (trace (submitButton isoOf false None 0%Z wantsAtSign "bob" standupProps
                 standup (Responded created))) = []
  /\ networkCalls
       (trace (submitButton isoOf false None 0%Z wantsAtSign "" standupProps
                 {| emails := ["a@x.com"]; meetingTitle := "   ";
                    meetingDate := 0%Z; isSubmitting := false |}
                 (Responded created))) = [].
Proof.
  split; [|split].
  - apply (proj1 (X15_button_sends_iff isoOf false None 0%Z wantsAtSign "b@x.com"
                    standupProps standup (Responded created))).
    simpl. repeat split; discriminate.
  - destruct (X15_button_sends_iff isoOf false None 0%Z wantsAtSign "bob"
                standupProps standup (Responded created))
      as [_ [E|E]]; [exact E | discriminate E].
  - destruct (X15_button_sends_iff isoOf false None 0%Z wantsAtSign ""
                standupProps
                {| emails := ["a@x.com"]; meetingTitle := "   ";
                   meetingDate := 0%Z; isSubmitting := false |}
                (Responded created)) as [_ [E|E]]; [exact E | discriminate E].
Defined.

Lemma X13_accepted_submission_witness :
  final (handleSubmit isoOf false None 7%Z standupProps standup (Responded created))
  = {| emails := []; meetingTitle := ""; meetingDate := 7%Z; isSubmitting := false |}
  /\ final (handleSubmit isoOf false None 7%Z standupProps standup
              (Responded {| status := 200; json := ParsedBare "true" |}))
     = {| emails := []; meetingTitle := ""; meetingDate := 7%Z; isSubmitting := false |}.
Proof.
  split.
  - refine (proj1 (X13_accepted_submission isoOf false None 7%Z standupProps standup
                     created _ _ _)).
    + unfold validDraft. simpl. repeat split; discriminate.
    + reflexivity.
    + reflexivity.
  - refine (proj1 (X13_accepted_submission isoOf false None 7%Z standupProps standup
                     {| status := 200; json := ParsedBare "true" |} _ _ _)).
    + unfold validDraft. simpl. repeat split; discriminate.
    + reflexivity.
    + reflexivity.
Defined.

Lemma X26_null_success_body_witness :
  final (handleSubmit isoOf false None 0%Z standupProps standup
           (Responded {| status := 200;
                         json := ParsedNull "data is null" |}))
  = standup.
Proof.
  refine (proj1 (X26_null_success_body isoOf false None 0%Z standupProps standup
                   {| status := 200; json := ParsedNull "data is null" |}
                   "data is null" _ eq_refl eq_refl)).
  unfold validDraft. simpl. repeat split; discriminate.
Defined.

Lemma X14_unreadable_success_body_witness :
  toastsOf
    (trace (handleSubmit isoOf false None 0%Z standupProps standup
              (Responded {| status := 201; json := ParseError "Unexpected token" |})))
  = [ {| toastTitle := "Submission Failed"; description := "Unexpected token";
         destructive := true |} ].
Proof.
  refine (proj1 (proj2 (X14_unreadable_success_body isoOf false None 0%Z
             standupProps standup
             {| status := 201; json := ParseError "Unexpected token" |}
             "Unexpected token" _ eq_refl eq_refl))).
  unfold validDraft. simpl. repeat split; discriminate.
Defined.

End SubmissionModalMore.

(** ** The elapsed-time display *)

Module ClockFacts.
Import Clock.

Lemma readInt_numeral (n : Z) : readInt (numeral n) = Some n.
Proof.
  unfold readInt, numeral. rewrite NilEmpty.isi. simpl.
  now rewrite DecimalZ.of_to.
Qed.

Lemma string_of_uint_digits (d : Decimal.uint) :
  EmailChipInput.allChars isDigit (NilEmpty.string_of_uint d) = true.
Proof. induction d; simpl; [reflexivity | exact IHd ..]. Qed.

Lemma numeral_digits (n : Z) :
  (0 <= n)%Z -> EmailChipInput.allChars isDigit (numeral n) = true.
Proof.
  intro H. unfold numeral. destruct n as [|p|p]; simpl.
  - reflexivity.
  - apply string_of_uint_digits.
  - lia.
Qed.

Lemma cutAtColon_after_digits (m x : string) :
  EmailChipInput.allChars isDigit m = true ->
  cutAtColon (m ++ String ":" x) = Some (m, x).
Proof.
  induction m as [|c m IH]; simpl; intro H; [reflexivity|].
  apply andb_true_iff in H. destruct H as [Hc Hm].
  rewrite (IH Hm).
  destruct (Ascii.eqb c ":"%char) eqn:E; [|reflexivity].
  apply Ascii.eqb_eq in E. subst c. discriminate Hc.
Qed.

(** The seconds field, for each of the sixty remainders. *)
Lemma seconds_field (r : Z) :
  (0 <= r < 60)%Z ->
  padStart 2 (numeral r) = (numeral (r / 10) ++ numeral (r mod 10))%string
  /\ readInt (padStart 2 (numeral r)) = Some r.
Proof.
  intro H.
  replace r with (Z.of_nat (Z.to_nat r)) by lia.
  assert (B : Z.to_nat r < 60) by lia.
  generalize dependent (Z.to_nat r). clear H. intros n B.
  do 60 (destruct n as [|n]; [split; vm_compute; reflexivity|]).
  lia.
Qed.

Lemma isSafeInteger_nonneg (s : Z) :
  (0 <= s <= MAX_SAFE_INTEGER)%Z -> isSafeInteger s = true.
Proof.
  unfold isSafeInteger, MAX_SAFE_INTEGER. intro H.
  apply andb_true_iff. split; apply Z.leb_le; lia.
Qed.

Lemma toString_safe (n : Z) :
  (0 <= n <= MAX_SAFE_INTEGER)%Z -> toString n = Some (numeral n).
Proof. intro H. unfold toString. now rewrite (isSafeInteger_nonneg n H). Qed.

(** On a safe number of seconds the two fields are safe again. *)
Lemma formatRecordingDuration_fields (s : Z) :
  (0 <= s <= MAX_SAFE_INTEGER)%Z ->
  formatRecordingDuration s
  = Some (numeral (s / 60) ++ ":" ++ padStart 2 (numeral (s mod 60)))%string.
Proof.
  intro H. unfold formatRecordingDuration.
  rewrite (isSafeInteger_nonneg s H). cbv zeta.
  rewrite Z.rem_mod_nonneg by lia.
  assert (Hr : (0 <= s mod 60 < 60)%Z) by (apply Z.mod_pos_bound; lia).
  assert (Hq : (0 <= s / 60 <= s)%Z).
  { split; [apply Z.div_pos; lia|]. apply Z.div_le_upper_bound; lia. }
  rewrite !toString_safe; [reflexivity | unfold MAX_SAFE_INTEGER in *; lia ..].
Qed.

Lemma formatRecordingDuration_read (s : Z) :
  (0 <= s <= MAX_SAFE_INTEGER)%Z ->
  option_map readClock (formatRecordingDuration s) = Some (Some s).
Proof.
  intro H. rewrite (formatRecordingDuration_fields s H).
  simpl. f_equal. unfold readClock.
  assert (Hq : (0 <= s / 60)%Z) by (apply Z.div_pos; lia).
  assert (Hr : (0 <= s mod 60 < 60)%Z) by (apply Z.mod_pos_bound; lia).
  rewrite (cutAtColon_after_digits _ _ (numeral_digits _ Hq)).
  rewrite readInt_numeral.
  destruct (seconds_field _ Hr) as [_ ->].
  f_equal. pose proof (Z.div_mod s 60). lia.
Qed.

(** X16: for a number of seconds that is a whole number from 0 to
    [Number.MAX_SAFE_INTEGER] the display is the minutes, a colon and
    exactly two digits of seconds (tens, then units); the controls'
    [formatTime] shows the same text. *)
Theorem X16_duration_display (s : Z) :
  (0 <= s <= MAX_SAFE_INTEGER)%Z ->
  formatRecordingDuration s
  = Some (numeral (s / 60) ++ ":" ++ numeral ((s mod 60) / 10)
                            ++ numeral ((s mod 60) mod 10))%string
  /\ formatTime s = formatRecordingDuration s.
Proof.
  intro H. split; [|reflexivity].
  rewrite (formatRecordingDuration_fields s H).
  assert (Hr : (0 <= s mod 60 < 60)%Z) by (apply Z.mod_pos_bound; lia).
  now destruct (seconds_field _ Hr) as [-> _].
Qed.

Lemma X16_duration_display_witness :
  formatRecordingDuration 3725 = Some "62:05" /\ formatTime 59 = Some "0:59".
Proof.
  destruct (X16_duration_display 3725) as [E _]; [unfold MAX_SAFE_INTEGER; lia|].
  destruct (X16_duration_display 59) as [E1 E2]; [unfold MAX_SAFE_INTEGER; lia|].
  split; [rewrite E | rewrite E2, E1]; reflexivity.
Defined.

(** X17: the display loses nothing: two durations, whole numbers of seconds
    from 0 to [Number.MAX_SAFE_INTEGER], that are shown by the same text are
    the same number of seconds. *)
Theorem X17_duration_display_injective (a b : Z) :
  (0 <= a <= MAX_SAFE_INTEGER)%Z -> (0 <= b <= MAX_SAFE_INTEGER)%Z ->
  formatRecordingDuration a = formatRecordingDuration b -> a = b.
Proof.
  intros Ha Hb E.
  pose proof (formatRecordingDuration_read a Ha) as Ra.
  pose proof (formatRecordingDuration_read b Hb) as Rb.
  rewrite E in Ra. congruence.
Qed.

Lemma X17_duration_display_injective_witness :
  formatRecordingDuration 125 = formatRecordingDuration (2 * 60 + 5)
  /\ 125%Z = (2 * 60 + 5)%Z.
Proof.
  split; [reflexivity|].
  apply (X17_duration_display_injective 125 (2 * 60 + 5));
    [unfold MAX_SAFE_INTEGER; lia | unfold MAX_SAFE_INTEGER; lia | reflexivity].
Defined.

End ClockFacts.

(** ** Tokens, requests and logout *)

Module AuthFacts.
Import World Auth.

Ltac conjuncts := repeat match goal with |- _ /\ _ => split end.

Lemma present_iff (v : option string) :
  present v = true <-> exists t, v = Some t /\ t <> "".
Proof.
  destruct v as [t|]; simpl.
  - destruct t as [|c t]; simpl; split.
    + discriminate.
    + intros (t' & E & N). injection E as E. congruence.
    + intros _. eexists. split; [reflexivity | discriminate].
    + reflexivity.
  - split; [discriminate | intros (t & E & _); discriminate E].
Qed.

(** X18: the tokens [storeTokens] writes are what the accessors read
    back, whatever was stored before; an expiry is stored with them; every
    other key keeps its value; and the user counts as authenticated exactly
    when neither token is the empty string. *)
Theorem X18_storeTokens_read_back (nowMs : Z) (t : AuthTokens) (s : Storage) :
  getAccessToken (storeTokens nowMs t s) = Some (accessToken t)
  /\ getRefreshToken (storeTokens nowMs t s) = Some (refreshToken t)
  /\ getItem TOKEN_EXPIRATION (storeTokens nowMs t s) <> None
  /\ (isAuthenticated (storeTokens nowMs t s) = true
      <-> accessToken t <> "" /\ refreshToken t <> "")
  /\ (forall k, k <> ACCESS_TOKEN -> k <> REFRESH_TOKEN -> k <> TOKEN_EXPIRATION ->
      getItem k (storeTokens nowMs t s) = getItem k s).
Proof.
  assert (A : getAccessToken (storeTokens nowMs t s) = Some (accessToken t))
    by reflexivity.
  assert (R : getRefreshToken (storeTokens nowMs t s) = Some (refreshToken t))
    by reflexivity.
  split; [exact A|]. split; [exact R|]. split; [discriminate|]. split.
  - unfold isAuthenticated. rewrite A, R. simpl.
    rewrite andb_true_iff.
    assert (T : forall x, JS.truthy x = true <-> x <> "")
      by (intros []; simpl; split; congruence).
    now rewrite !T.
  - intros k Ka Kr Ke. unfold storeTokens, getItem, setItem.
    apply String.eqb_neq in Ka, Kr, Ke. now rewrite Ka, Kr, Ke.
Qed.

Lemma clearAuthData_keys (s : Storage) :
  getAccessToken (clearAuthData s) = None
  /\ getRefreshToken (clearAuthData s) = None
  /\ getItem USER_PROFILE (clearAuthData s) = None
  /\ getItem TOKEN_EXPIRATION (clearAuthData s) = None
  /\ isAuthenticated (clearAuthData s) = false.
Proof. repeat split. Qed.

Lemma clearAuthData_other (s : Storage) (k : string) :
  k <> ACCESS_TOKEN -> k <> REFRESH_TOKEN -> k <> USER_PROFILE ->
  k <> TOKEN_EXPIRATION ->
  getItem k (clearAuthData s) = getItem k s.
Proof.
  intros Ka Kr Ku Ke. unfold clearAuthData, getItem, removeItem.
  apply String.eqb_neq in Ka, Kr, Ku, Ke. now rewrite Ka, Kr, Ku, Ke.
Qed.

(** X19: [clearAuthData] removes both tokens, the cached profile and the
    expiry, whatever was stored (tokens just written included), so the user
    no longer counts as authenticated; every other key keeps its value. *)
Theorem X19_clearAuthData_forgets (nowMs : Z) (t : AuthTokens) (s : Storage) :
  getAccessToken (clearAuthData s) = None
  /\ getRefreshToken (clearAuthData s) = None
  /\ getItem USER_PROFILE (clearAuthData s) = None
  /\ getItem TOKEN_EXPIRATION (clearAuthData s) = None
  /\ isAuthenticated (clearAuthData s) = false
  /\ isAuthenticated (clearAuthData (storeTokens nowMs t s)) = false
  /\ (forall k, k <> ACCESS_TOKEN -> k <> REFRESH_TOKEN -> k <> USER_PROFILE ->
                k <> TOKEN_EXPIRATION ->
                getItem k (clearAuthData s) = getItem k s).
Proof.
  repeat split. intros k. apply clearAuthData_other.
Qed.

Section Service.

Variable production : bool.
Variable server : Server.
Variable nowMs : Z.

Lemma sentOf_app (a b : list Note) : sentOf (a ++ b) = sentOf a ++ sentOf b.
Proof. unfold sentOf. apply flat_map_app. Qed.

Lemma sameElsewhere_refl (s : Storage) : sameElsewhere s s.
Proof. intros k _ _ _ _. reflexivity. Qed.

Lemma sameElsewhere_trans (a b c : Storage) :
  sameElsewhere a b -> sameElsewhere b c -> sameElsewhere a c.
Proof.
  intros H1 H2 k Ka Kr Ku Ke. rewrite (H2 k), (H1 k) by assumption. reflexivity.
Qed.

Lemma sameElsewhere_clear (s : Storage) : sameElsewhere s (clearAuthData s).
Proof. intros k. apply clearAuthData_other. Qed.

Lemma sameElsewhere_store (t : AuthTokens) (s : Storage) :
  sameElsewhere s (storeTokens nowMs t s).
Proof.
  intros k Ka Kr _ Ke. unfold storeTokens, getItem, setItem.
  apply String.eqb_neq in Ka, Kr, Ke. now rewrite Ka, Kr, Ke.
Qed.

Lemma sameElsewhere_undefined (s : Storage) :
  sameElsewhere s (storeUndefinedTokens s).
Proof.
  intros k Ka Kr _ Ke. unfold storeUndefinedTokens, getItem, setItem.
  apply String.eqb_neq in Ka, Kr, Ke. now rewrite Ka, Kr, Ke.
Qed.

Lemma settle_keeps (endpoint : string) (status : Z) (rb : ReplyBody) (b : Browser) :
  storage (fst (settle endpoint status rb b)) = storage b
  /\ href (fst (settle endpoint status rb b)) = href b
  /\ sentOf (notes (fst (settle endpoint status rb b))) = sentOf (notes b).
Proof.
  unfold settle. destruct (okStatus status); simpl.
  - destruct rb as [d|msg]; simpl; tauto.
  - unfold ApiService.handleApiError, asResponse.
    destruct rb as [d|msg]; simpl; rewrite sentOf_app; simpl;
      rewrite app_nil_r; tauto.
Qed.

Lemma sessionExpired_does (b : Browser) :
  storage (fst (sessionExpired b)) = clearAuthData (storage b)
  /\ href (fst (sessionExpired b)) = Some "/login"
  /\ sentOf (notes (fst (sessionExpired b))) = sentOf (notes b)
  /\ snd (sessionExpired b) = Rejected sessionExpiredError.
Proof.
  unfold sessionExpired. simpl. rewrite sentOf_app. simpl.
  rewrite app_nil_r. tauto.
Qed.

Lemma refresh_keeps (b : Browser) :
  let r := refreshAccessToken production server nowMs b in
  href (fst r) = href b
  /\ sameElsewhere (storage b) (storage (fst r))
  /\ ((present (getRefreshToken (storage b)) = false /\ fst r = b /\ snd r <> None)
      \/ (present (getRefreshToken (storage b)) = true
          /\ exists q, sentOf (notes (fst r)) = sentOf (notes b) ++ [q]
                       /\ url q = (ApiService.BASE_URL production ++ "/auth/refresh")%string)).
Proof.
  cbv zeta. unfold refreshAccessToken.
  destruct (present (getRefreshToken (storage b))) eqn:P; simpl.
  2:{ conjuncts; try apply sameElsewhere_refl; try reflexivity.
      left. conjuncts; [reflexivity | reflexivity | discriminate]. }
  assert (S1 : forall n, url n = (ApiService.BASE_URL production ++ "/auth/refresh")%string ->
             true = false /\ True \/
             true = true /\
             exists q, sentOf (notes b ++ [Sent n]) = sentOf (notes b) ++ [q]
                       /\ url q = (ApiService.BASE_URL production ++ "/auth/refresh")%string).
  { intros n Hn. right. split; [reflexivity|]. exists n. rewrite sentOf_app. simpl.
    split; [reflexivity | exact Hn]. }
  destruct (server _ _) as [msg|status rb]; simpl.
  { conjuncts; try apply sameElsewhere_refl; try reflexivity.
    right. split; [reflexivity|]. eexists. rewrite sentOf_app. simpl.
    split; reflexivity. }
  destruct (okStatus status); simpl.
  2:{ conjuncts; try apply sameElsewhere_refl; try reflexivity.
      right. split; [reflexivity|]. eexists. rewrite sentOf_app. simpl.
      split; reflexivity. }
  destruct rb as [d|msg]; simpl.
  2:{ conjuncts; try apply sameElsewhere_refl; try reflexivity.
      right. split; [reflexivity|]. eexists. rewrite sentOf_app. simpl.
      split; reflexivity. }
  destruct (data d) as [[t|txt]|]; simpl;
    (conjuncts;
     [ reflexivity
     | first [apply sameElsewhere_store | apply sameElsewhere_undefined
             | apply sameElsewhere_refl]
     | right; split; [reflexivity|]; eexists; rewrite sentOf_app; simpl;
       split; reflexivity ]).
Qed.

Lemma firstHeaders_authorization (requiresAuth : bool) (s : Storage) :
  existsb (fun h => String.eqb (fst h) "Authorization")
    (if requiresAuth then
       match getAccessToken s with
       | Some token =>
           if JS.truthy token
           then setHeader "Authorization" ("Bearer " ++ token)
                  [("Content-Type", "application/json")]
           else [("Content-Type", "application/json")]
       | None => [("Content-Type", "application/json")]
       end
     else [("Content-Type", "application/json")])
  = requiresAuth && present (getAccessToken s).
Proof.
  destruct requiresAuth; [|reflexivity]. unfold present.
  destruct (getAccessToken s) as [t|]; [|reflexivity].
  destruct (JS.truthy t); reflexivity.
Qed.

(** One call of [makeRequest], case by case. *)
Lemma makeRequest_shape (endpoint method : string) (body : option string)
    (requiresAuth : bool) (b : Browser) :
  let r := makeRequest production server nowMs endpoint method body requiresAuth b in
  exists first rest,
    sentOf (notes (fst r)) = sentOf (notes b) ++ first :: rest
    /\ length rest <= 2
    /\ url first = (ApiService.BASE_URL production ++ endpoint)%string
    /\ Auth.method first = method
    /\ Auth.body first = body
    /\ hasHeader "Authorization" first
       = requiresAuth && present (getAccessToken (storage b))
    /\ sameElsewhere (storage b) (storage (fst r))
    /\ ((href (fst r) = href b /\ (rest = [] -> storage (fst r) = storage b))
        \/ (href (fst r) = Some "/login"
            /\ loggedOut (storage (fst r))
            /\ isAuthenticated (storage (fst r)) = false
            /\ snd r = Rejected sessionExpiredError))
    /\ (requiresAuth = false \/ (forall rb, server (length (sentOf (notes b))) first
                                            <> Responds 401 rb) ->
        rest = [] /\ storage (fst r) = storage b /\ href (fst r) = href b).
Proof.
  cbv zeta. unfold makeRequest, fetch.
  pose proof (firstHeaders_authorization requiresAuth (storage b)) as HA.
  set (hs := if requiresAuth then _ else _) in *.
  set (req1 := {| url := _; method := method; headers := hs; body := body |}).
  exists req1.
  assert (S1 : sentOf (notes (note (Sent req1) b)) = sentOf (notes b) ++ [req1])
    by (simpl; rewrite sentOf_app; reflexivity).
  destruct (server (length (sentOf (notes b))) req1) as [msg|status rb] eqn:R1.
  { exists []. simpl fst. simpl snd. conjuncts; try reflexivity; try assumption.
    - simpl; lia.
    - apply sameElsewhere_refl.
    - left. split; reflexivity.
    - intros _. conjuncts; reflexivity. }
  destruct ((status =? 401)%Z && requiresAuth) eqn:G.
  2:{ destruct (settle_keeps endpoint status rb (note (Sent req1) b)) as (K1 & K2 & K3).
      exists []. conjuncts; try reflexivity; try assumption.
      - rewrite K3. exact S1.
      - simpl; lia.
      - rewrite K1. apply sameElsewhere_refl.
      - left. split; [exact K2 | intros _; exact K1].
      - intros _. conjuncts; [reflexivity | exact K1 | exact K2]. }
  apply andb_true_iff in G. destruct G as [G1 G2]. apply Z.eqb_eq in G1. subst status.
  set (b2 := note (Console "log" "Access token expired, attempting refresh...")
                  (note (Sent req1) b)).
  assert (S2 : sentOf (notes b2) = sentOf (notes b) ++ [req1]).
  { unfold b2. simpl. rewrite !sentOf_app. simpl. now rewrite app_nil_r. }
  pose proof (refresh_keeps b2) as RK. cbv zeta in RK.
  destruct (refreshAccessToken production server nowMs b2) as [b3 res] eqn:RF.
  simpl fst in RK. simpl snd in RK.
  destruct RK as (H3 & E3 & RK).
  assert (Last : requiresAuth = false \/
                 (forall rb0, Responds 401 rb <> Responds 401 rb0) -> False).
  { intros [F|F]; [congruence | exact (F rb eq_refl)]. }
  assert (EX : forall bx rest,
               sentOf (notes bx) = sentOf (notes b) ++ req1 :: rest ->
               length rest <= 2 ->
               sameElsewhere (storage b) (storage bx) ->
               sentOf (notes (fst (sessionExpired bx))) = sentOf (notes b) ++ req1 :: rest
               /\ sameElsewhere (storage b) (storage (fst (sessionExpired bx)))
               /\ href (fst (sessionExpired bx)) = Some "/login"
               /\ loggedOut (storage (fst (sessionExpired bx)))
               /\ isAuthenticated (storage (fst (sessionExpired bx))) = false
               /\ snd (sessionExpired bx) = Rejected sessionExpiredError).
  { intros bx rest Hs Lr He.
    destruct (sessionExpired_does bx) as (X1 & X2 & X3 & X4).
    rewrite X3, X1. conjuncts; try assumption; try reflexivity.
    - eapply sameElsewhere_trans; [exact He | apply sameElsewhere_clear].
    - unfold loggedOut. repeat split. }
  destruct RK as [(_ & Eb & Nn)|(_ & q & S3 & _)].
  { (* no refresh token: nothing was sent, the refresh threw *)
    subst b3. destruct res as [err|]; [|congruence].
    destruct (EX b2 [] S2) as (A1 & A3 & A4 & A5 & A6 & A7);
      [simpl; lia | apply sameElsewhere_refl |].
    exists []. conjuncts; try reflexivity; try assumption; try (simpl; lia);
      try (intro F; destruct (Last F)).
    right. conjuncts; assumption. }
  assert (Sb3 : sentOf (notes b3) = sentOf (notes b) ++ [req1; q]).
  { rewrite S3, S2, <- app_assoc. reflexivity. }
  destruct res as [err|].
  { destruct (EX b3 [q] Sb3) as (A1 & A3 & A4 & A5 & A6 & A7);
      [simpl; lia | exact E3 |].
    exists [q]. conjuncts; try reflexivity; try assumption; try (simpl; lia);
      try (intro F; destruct (Last F)).
    right. conjuncts; assumption. }
  destruct (present (getAccessToken (storage b3))) eqn:PT.
  2:{ destruct (settle_keeps endpoint 401 rb b3) as (K1 & K2 & K3).
      exists [q]. conjuncts; try reflexivity; try assumption; try (simpl; lia);
        try (intro F; destruct (Last F)).
      - rewrite K3. exact Sb3.
      - rewrite K1. exact E3.
      - left. split; [now rewrite K2 | discriminate]. }
  set (req3 := {| url := _; method := method; headers := _; body := body |}).
  set (b4 := note (Sent req3) b3).
  assert (Sb4 : sentOf (notes b4) = sentOf (notes b) ++ [req1; q; req3]).
  { unfold b4. simpl. rewrite sentOf_app, Sb3. simpl.
    rewrite <- app_assoc. reflexivity. }
  destruct (server (length (sentOf (notes b3))) req3) as [msg3|status3 rb3].
  { destruct (EX b4 [q; req3] Sb4) as (A1 & A3 & A4 & A5 & A6 & A7);
      [simpl; lia | exact E3 |].
    exists [q; req3].
    conjuncts; try reflexivity; try assumption; try (simpl; lia);
      try (intro F; destruct (Last F)).
    right. conjuncts; assumption. }
  destruct (settle_keeps endpoint status3 rb3 b4) as (K1 & K2 & K3).
  exists [q; req3].
  conjuncts; try reflexivity; try assumption; try (simpl; lia);
    try (intro F; destruct (Last F)).
  - rewrite K3. exact Sb4.
  - rewrite K1. exact E3.
  - left. split; [now rewrite K2 | discriminate].
Qed.

(** X20: one call of [makeRequest] sends at least one and at most three
    requests.  The first goes to the endpoint with the given method and
    body, and carries an [Authorization] header exactly when the call
    requires authentication and a non-empty access token is stored.  No
    stored key outside the authentication data is ever touched. *)
Theorem X20_makeRequest_bounded (endpoint method : string) (body : option string)
    (requiresAuth : bool) (b : Browser) :
  let r := makeRequest production server nowMs endpoint method body requiresAuth b in
  exists first rest,
    sentOf (notes (fst r)) = sentOf (notes b) ++ first :: rest
    /\ length rest <= 2
    /\ url first = (ApiService.BASE_URL production ++ endpoint)%string
    /\ Auth.method first = method
    /\ Auth.body first = body
    /\ hasHeader "Authorization" first
       = requiresAuth && present (getAccessToken (storage b))
    /\ sameElsewhere (storage b) (storage (fst r)).
Proof.
  destruct (makeRequest_shape endpoint method body requiresAuth b)
    as (first & rest & H1 & H2 & H3 & H4 & H5 & H6 & H7 & _).
  exists first, rest. conjuncts; assumption.
Qed.

(** X21: a request that needs no authentication, or whose first answer is
    not a 401, is sent once; the stored data and the location stay as they
    were, and without authentication no [Authorization] header is sent. *)
Theorem X21_makeRequest_single (endpoint method : string) (body : option string)
    (requiresAuth : bool) (b : Browser) :
  requiresAuth = false
  \/ (forall r rb, server (length (sentOf (notes b))) r <> Responds 401 rb) ->
  let r := makeRequest production server nowMs endpoint method body requiresAuth b in
  exists first,
    sentOf (notes (fst r)) = sentOf (notes b) ++ [first]
    /\ storage (fst r) = storage b
    /\ href (fst r) = href b
    /\ (requiresAuth = false -> hasHeader "Authorization" first = false).
Proof.
  intros H.
  destruct (makeRequest_shape endpoint method body requiresAuth b)
    as (first & rest & H1 & _ & _ & _ & _ & H6 & _ & _ & H9).
  destruct H9 as (-> & Hs & Hh).
  { destruct H as [H|H]; [now left | right; intro rb; apply H]. }
  exists first. conjuncts; try assumption.
  intros ->. exact H6.
Qed.

(** X22: whenever [makeRequest] changes the location, it has sent the user
    to [/login], removed both tokens, the cached profile and the expiry,
    and rejected with [Session expired. Please log in again.]. *)
Theorem X22_redirect_means_logged_out (endpoint method : string)
    (body : option string) (requiresAuth : bool) (b : Browser) :
  let r := makeRequest production server nowMs endpoint method body requiresAuth b in
  href (fst r) <> href b ->
  href (fst r) = Some "/login"
  /\ loggedOut (storage (fst r))
  /\ isAuthenticated (storage (fst r)) = false
  /\ snd r = Rejected sessionExpiredError.
Proof.
  destruct (makeRequest_shape endpoint method body requiresAuth b)
    as (first & rest & _ & _ & _ & _ & _ & _ & _ & H8 & _).
  cbv zeta in *. intro N. destruct H8 as [[H _]|H]; [contradiction | exact H].
Qed.

(** X23: [logout] always leaves the browser logged out, whatever the
    server answers and whether or not the request could be sent, and it
    touches no other stored key; with no refresh token stored it sends
    nothing, otherwise at most three requests. *)
Theorem X23_logout_always_clears (b : Browser) :
  let b' := logout production server nowMs b in
  loggedOut (storage b')
  /\ isAuthenticated (storage b') = false
  /\ sameElsewhere (storage b) (storage b')
  /\ length (sentOf (notes b')) <= length (sentOf (notes b)) + 3
  /\ (present (getRefreshToken (storage b)) = false ->
      sentOf (notes b') = sentOf (notes b)).
Proof.
  cbv zeta. unfold logout.
  destruct (present (getRefreshToken (storage b))) eqn:P.
  - match goal with |- context [makeRequest _ _ _ ?e ?m ?bd ?ra b] =>
      destruct (makeRequest_shape e m bd ra b)
        as (first & rest & H1 & H2 & _ & _ & _ & _ & H7 & _);
      destruct (makeRequest production server nowMs e m bd ra b) as [b1 out]
    end.
    simpl fst in *.
    assert (L : length (sentOf (notes b1)) <= length (sentOf (notes b)) + 3).
    { rewrite H1, length_app. simpl. lia. }
    destruct out as [v|err]; simpl; rewrite ?sentOf_app; simpl;
      rewrite ?app_nil_r; conjuncts; try reflexivity; try exact L;
      try discriminate;
      try (eapply sameElsewhere_trans; [exact H7 | apply sameElsewhere_clear]);
      unfold loggedOut; repeat split.
  - simpl. rewrite sentOf_app. simpl. rewrite app_nil_r.
    conjuncts; try reflexivity; try lia.
    + unfold loggedOut. repeat split.
    + apply sameElsewhere_clear.
Qed.

Lemma length_sent_note (r : ApiRequest) (b : Browser) :
  length (sentOf (notes (note (Sent r) b))) = S (length (sentOf (notes b))).
Proof. simpl. rewrite sentOf_app, length_app. simpl. lia. Qed.

(** X24: an authenticated request answered by 401 while no refresh token is
    stored ends the session at once: one request only (no refresh, no
    retry), the authentication data removed, the location set to [/login]
    and the call rejected with [Session expired. Please log in again.]. *)
Theorem X24_expiry_without_refresh_token (endpoint method : string)
    (body : option string) (b : Browser) (rb : ReplyBody) :
  (forall r, server (length (sentOf (notes b))) r = Responds 401 rb) ->
  present (getRefreshToken (storage b)) = false ->
  let r := makeRequest production server nowMs endpoint method body true b in
  snd r = Rejected sessionExpiredError
  /\ href (fst r) = Some "/login"
  /\ loggedOut (storage (fst r))
  /\ length (sentOf (notes (fst r))) = S (length (sentOf (notes b))).
Proof.
  intros Hs Hp. cbv zeta. unfold makeRequest, fetch.
  rewrite Hs. simpl andb. cbv iota.
  unfold refreshAccessToken. simpl storage. rewrite Hp. simpl negb. cbv iota.
  unfold sessionExpired. simpl.
  rewrite !sentOf_app. simpl. rewrite !app_nil_r, length_app. simpl.
  conjuncts; try reflexivity; try lia.
  unfold loggedOut. repeat split.
Qed.





End Service.

Lemma X18_storeTokens_read_back_witness :
  let s := storeTokens 1000 {| accessToken := "a1"; refreshToken := "r1";
                               expiresIn := 3600 |}
             (setItem "theme" "dark" emptyStorage) in
  isAuthenticated s = true
  /\ getAccessToken s = Some "a1"
  /\ getItem "theme" s = Some "dark".
Proof.
  intro s.
  destruct (X18_storeTokens_read_back 1000
              {| accessToken := "a1"; refreshToken := "r1"; expiresIn := 3600 |}
              (setItem "theme" "dark" emptyStorage)) as (T & _ & _ & A & O).
  conjuncts.
  - apply A. split; discriminate.
  - exact T.
  - unfold s. rewrite O; [reflexivity | discriminate ..].
Defined.

Lemma X19_clearAuthData_forgets_witness :
  let s := setItem "theme" "dark"
             (storeTokens 0 {| accessToken := "a1"; refreshToken := "r1";
                               expiresIn := 60 |} emptyStorage) in
  isAuthenticated s = true
  /\ isAuthenticated (clearAuthData s) = false
  /\ getItem "theme" (clearAuthData s) = Some "dark".
Proof.
  intro s.
  destruct (X19_clearAuthData_forgets 0
              {| accessToken := "a1"; refreshToken := "r1"; expiresIn := 60 |} s)
    as (_ & _ & _ & _ & A & _ & O).
  conjuncts; [reflexivity | exact A |].
  rewrite O; [reflexivity | discriminate ..].
Defined.

Lemma X23_logout_always_clears_witness :
  let b := {| storage := setItem ACCESS_TOKEN "a1" emptyStorage;
              href := None; notes := [] |} in
  let server (n : nat) (_ : ApiRequest) := Rejects "Failed to fetch" in
  isAuthenticated (storage (logout false server 0 b)) = false
  /\ sentOf (notes (logout false server 0 b)) = [].
Proof.
  intros b server.
  destruct (X23_logout_always_clears false server 0 b) as (_ & A & _ & _ & N).
  split; [exact A | exact (N eq_refl)].
Defined.


Lemma X24_expiry_without_refresh_token_witness :
  let b := {| storage := setItem ACCESS_TOKEN "old" emptyStorage;
              href := None; notes := [] |} in
  let server (n : nat) (_ : ApiRequest) := Responds 401 (NotJson "") in
  let r := makeRequest false server 0 "/user/profile" "GET" None true b in
  snd r = Rejected sessionExpiredError
  /\ href (fst r) = Some "/login"
  /\ getAccessToken (storage (fst r)) = None.
Proof.
  intros b server r.
  destruct (X24_expiry_without_refresh_token false server 0 "/user/profile" "GET"
              None b (NotJson "")) as (O & H & L & _); try reflexivity.
  fold r in O, H, L. destruct L as (L & _). conjuncts; assumption.
Defined.

Lemma X21_makeRequest_single_witness :
  let b := {| storage := setItem ACCESS_TOKEN "tok" emptyStorage;
              href := None; notes := [] |} in
  let server (n : nat) (_ : ApiRequest) := Responds 401 (NotJson "") in
  let r := makeRequest false server 0 "/auth/login" "POST" (Some "{}") false b in
  exists first,
    sentOf (notes (fst r)) = [first]
    /\ hasHeader "Authorization" first = false
    /\ getAccessToken (storage (fst r)) = Some "tok".
Proof.
  intros b server r.
  destruct (X21_makeRequest_single false server 0 "/auth/login" "POST" (Some "{}")
              false b (or_introl eq_refl)) as (first & S & St & _ & A).
  fold r in S, St. exists first. rewrite St. conjuncts;
    [exact S | exact (A eq_refl) | reflexivity].
Defined.

Lemma X22_redirect_means_logged_out_witness :
  let b := {| storage := setItem ACCESS_TOKEN "old" emptyStorage;
              href := None; notes := [] |} in
  let server (n : nat) (_ : ApiRequest) := Responds 401 (NotJson "") in
  let r := makeRequest false server 0 "/meetings" "GET" None true b in
  href (fst r) = Some "/login" /\ isAuthenticated (storage (fst r)) = false.
Proof.
  intros b server r.
  destruct (X22_redirect_means_logged_out false server 0 "/meetings" "GET" None
              true b) as (H & _ & A & _).
  - discriminate.
  - split; assumption.
Defined.

End AuthFacts.
